(** * Repacss-checkpoint: the two DMTCP demo step engines

    A shallow embedding of

      - [demo/mpi/hello_mpi.c]   (coordinator-worker engine, one process per rank)
      - [demo/omp_dmtcp_demo.c]  (thread-barrier engine, one process, a team of threads)

    C [int] is a 32-bit two's-complement integer and [uint64_t] a 64-bit
    unsigned one (LP64); both are carried as [Z] with the wrap-around
    written out.  The collectives of MPI and the barrier of OpenMP are
    synchronous, so a run is a sequence of whole iterations of the step
    loop, the last of them possibly held at its barrier with the lines
    of the threads that got there; a checkpoint/restart freezes and
    revives the whole state and is therefore a run that starts from an
    intermediate state. *)

From Stdlib Require Import ZArith String Ascii Bool List Permutation Lia.
Import ListNotations.

Local Open Scope Z_scope.

(** ** Machine integers *)

Module CInt.

Definition INT_MAX : Z := 2147483647.
Definition INT_MIN : Z := -2147483648.
Definition LONG_MAX : Z := 9223372036854775807.
Definition LONG_MIN : Z := -9223372036854775808.

(** Reduction of a mathematical integer to [int]. *)
Definition wrap32 (z : Z) : Z := (z + 2 ^ 31) mod 2 ^ 32 - 2 ^ 31.

(** Conversion to [unsigned int] / [useconds_t]. *)
Definition u32 (z : Z) : Z := z mod 2 ^ 32.

(** Conversion to [uint64_t] / [unsigned long long]. *)
Definition u64 (z : Z) : Z := z mod 2 ^ 64.

Definition is_int (z : Z) : Prop := INT_MIN <= z <= INT_MAX.

(** [c, c+1, ..., m-1]. *)
Definition zrange (c m : Z) : list Z :=
  map (fun k => c + Z.of_nat k) (seq 0 (Z.to_nat (m - c))).

End CInt.
Import CInt.

(** ** The C library calls the programs make *)

Module Libc.

(** [isspace] in the C locale. *)
Definition isspace (c : ascii) : bool :=
  match nat_of_ascii c with
  | 32%nat | 9%nat | 10%nat | 11%nat | 12%nat | 13%nat => true
  | _ => false
  end.

Definition digit_of (c : ascii) : option Z :=
  let n := Z.of_nat (nat_of_ascii c) in
  if (48 <=? n) && (n <=? 57) then Some (n - 48) else None.

Fixpoint skip_space (s : string) : string :=
  match s with
  | String c rest => if isspace c then skip_space rest else s
  | EmptyString => s
  end.

(** The decimal digits at the front of [s], accumulated onto [acc]. *)
Fixpoint digits (acc : Z) (s : string) : Z :=
  match s with
  | String c rest =>
      match digit_of c with
      | Some d => digits (10 * acc + d) rest
      | None => acc
      end
  | EmptyString => acc
  end.

(** [strtol(s, NULL, 10)]: blanks, an optional sign, digits; the value
    saturates at the ends of [long]. *)
Definition strtol (s : string) : Z :=
  let v :=
    match skip_space s with
    | String "-"%char rest => - digits 0 rest
    | String "+"%char rest => digits 0 rest
    | t => digits 0 t
    end in
  Z.max LONG_MIN (Z.min LONG_MAX v).

(** [atoi(s)] is [(int) strtol(s, NULL, 10)]. *)
Definition atoi (s : string) : Z := wrap32 (strtol s).

(** The process environment and [getenv]. *)
Definition environ : Type := list (string * string).

Fixpoint getenv (e : environ) (name : string) : option string :=
  match e with
  | [] => None
  | (k, v) :: rest => if String.eqb k name then Some v else getenv rest name
  end.

End Libc.
Import Libc.

(** ** demo/mpi/hello_mpi.c *)

Module HelloMpi.

(** What a process writes to stdout and the sleeps it takes. *)
Inductive event : Type :=
| EvStart (world : Z)                                  (* "[start] world=%d host[0]=%s" *)
| EvStep (step : Z) (shown : list Z) (more : option Z) (* "[step %d] gathered: ... ...(+%d more)" *)
| EvUsleep (usec : Z)                                  (* usleep(usec) *)
| EvFinish (steps : Z).                                (* "[finish] completed steps=%d" *)

(** The variables of [main] in one process. *)
Record proc : Type := mkProc {
  rank : Z;
  size : Z;
  counter : Z;                    (* static int counter *)
  max_steps : Z;
  sleep_ms : Z;
  step : Z;                       (* the loop body's [step], after MPI_Bcast *)
  my_value : Z;
  gather_buf : option (list Z);   (* NULL except on rank 0 *)
  out : list event                (* oldest first *)
}.

(** [int max_steps = 120; env = getenv("MAX_STEPS");
     if (env) { max_steps = atoi(env); if (max_steps < 1) max_steps = 1; }] *)
Definition config_max_steps (e : environ) : Z :=
  match getenv e "MAX_STEPS" with
  | Some s => let m := atoi s in if m <? 1 then 1 else m
  | None => 120
  end.

(** [int sleep_ms = 1000; env2 = getenv("SLEEP_MS");
     if (env2) { sleep_ms = atoi(env2); if (sleep_ms < 0) sleep_ms = 0; }] *)
Definition config_sleep_ms (e : environ) : Z :=
  match getenv e "SLEEP_MS" with
  | Some s => let m := atoi s in if m <? 0 then 0 else m
  | None => 1000
  end.

(** A process as it stands just before the step loop, [counter] given. *)
Definition proc_at (e : environ) (n : nat) (c : Z) (r : nat) : proc :=
  let sz := Z.of_nat n in
  let rk := Z.of_nat r in
  {| rank := rk; size := sz; counter := c;
     max_steps := config_max_steps e; sleep_ms := config_sleep_ms e;
     step := 0; my_value := 0;
     gather_buf := if rk =? 0 then Some (repeat 0 n) else None;   (* malloc'ed, not yet written *)
     out := [] |}.

(** The processes of MPI_COMM_WORLD, in rank order: the head of the
    list is rank 0, the root of both collectives. *)
Definition world : Type := list proc.

Definition world_at (e : environ) (n : nat) (c : Z) : world :=
  map (proc_at e n c) (seq 0 n).

(** [if (rank == 0) printf("[start] world=%d host[0]=%s\n", size, hostname);] *)
Definition start (p : proc) : proc :=
  {| rank := rank p; size := size p; counter := counter p;
     max_steps := max_steps p; sleep_ms := sleep_ms p;
     step := step p; my_value := my_value p;
     gather_buf := gather_buf p;
     out := out p ++ (if rank p =? 0 then [EvStart (size p)] else []) |}.

(** A fresh launch: [counter] is zero-initialised. *)
Definition init_world (e : environ) (n : nat) : world :=
  map start (world_at e n 0).

(** The loop test [counter < max_steps]. *)
Definition in_loop (p : proc) : bool := counter p <? max_steps p.

(** [int step = counter; MPI_Bcast(&step, 1, MPI_INT, 0, MPI_COMM_WORLD);]
    the root keeps its own value, every other rank receives the root's. *)
Definition bcast (root_step : Z) (p : proc) : proc :=
  let local := counter p in
  let received := if rank p =? 0 then local else root_step in
  {| rank := rank p; size := size p; counter := counter p;
     max_steps := max_steps p; sleep_ms := sleep_ms p;
     step := received; my_value := my_value p;
     gather_buf := gather_buf p; out := out p |}.

(** [my_value = rank * (step + 1);] *)
Definition compute (p : proc) : proc :=
  {| rank := rank p; size := size p; counter := counter p;
     max_steps := max_steps p; sleep_ms := sleep_ms p;
     step := step p; my_value := wrap32 (rank p * wrap32 (step p + 1));
     gather_buf := gather_buf p; out := out p |}.

(** What MPI_Gather delivers at the root: one value per rank, in rank order. *)
Definition gathered (w : world) : list Z := map my_value w.

(** The root's summary line: at most the first 8 values, then the
    number of values left out. *)
Definition summary (p : proc) (buf : list Z) : event :=
  let limit := if size p <? 8 then size p else 8 in
  EvStep (step p) (firstn (Z.to_nat limit) buf)
         (if limit <? size p then Some (size p - limit) else None).

(** The rest of the body after the values are gathered, and [counter++]. *)
Definition finish_step (buf : list Z) (p : proc) : proc :=
  let root := rank p =? 0 in
  let printed := if root then [summary p buf] else [] in
  let slept := if 0 <? sleep_ms p then [EvUsleep (u32 (u32 (sleep_ms p) * 1000))] else [] in
  {| rank := rank p; size := size p; counter := wrap32 (counter p + 1);
     max_steps := max_steps p; sleep_ms := sleep_ms p;
     step := step p; my_value := my_value p;
     gather_buf := if root then Some buf else gather_buf p;
     out := out p ++ printed ++ slept |}.

Inductive step_result : Type :=
| Advanced (w : world)   (* every rank went through one iteration *)
| Finished               (* every rank left the loop *)
| Hang.                  (* some ranks wait in a collective the others never enter *)

(** One iteration of the step loop on all ranks: the broadcast hands
    out the root's [step], every rank computes, the gather collects. *)
Definition world_step (w : world) : step_result :=
  if forallb in_loop w then
    let root_step := match w with p0 :: _ => counter p0 | [] => 0 end in
    let w1 := map compute (map (bcast root_step) w) in
    Advanced (map (finish_step (gathered w1)) w1)
  else if forallb (fun p => negb (in_loop p)) w then Finished
  else Hang.

(** After the loop: [if (rank == 0) printf("[finish] completed steps=%d\n", counter);] *)
Definition finish (p : proc) : proc :=
  {| rank := rank p; size := size p; counter := counter p;
     max_steps := max_steps p; sleep_ms := sleep_ms p;
     step := step p; my_value := my_value p;
     gather_buf := gather_buf p;
     out := out p ++ (if rank p =? 0 then [EvFinish (counter p)] else []) |}.

Inductive outcome : Type :=
| Done (w : world)        (* MPI_Finalize reached on every rank *)
| Deadlock (w : world)
| OutOfFuel (w : world).

(** The step loop; the first component lists the world after each
    iteration. *)
Fixpoint run_loop (fuel : nat) (w : world) : list world * outcome :=
  match world_step w with
  | Finished => ([], Done (map finish w))
  | Hang => ([], Deadlock w)
  | Advanced w' =>
      match fuel with
      | O => ([], OutOfFuel w)
      | S f => let (hist, o) := run_loop f w' in (w' :: hist, o)
      end
  end.

(** Iterations still to go, read off the root. *)
Definition remaining (w : world) : nat :=
  match w with
  | p0 :: _ => Z.to_nat (max_steps p0 - counter p0)
  | [] => O
  end.

Definition run (w : world) : list world * outcome :=
  run_loop (remaining w) w.

(** A fresh launch of [n] ranks. *)
Definition main (e : environ) (n : nat) : list world * outcome :=
  run (init_world e n).

(** A run revived from a checkpoint taken at the loop head with
    [counter = c] on every rank. *)
Definition mpi_resume (e : environ) (n : nat) (c : Z) : list world * outcome :=
  run (world_at e n c).

(** Observations on a run. *)

(** The root's gather buffer and the root's output. *)
Definition root_gather (w : world) : option (list Z) :=
  match w with p0 :: _ => gather_buf p0 | [] => None end.

Definition root_events (w : world) : list event :=
  match w with p0 :: _ => out p0 | [] => [] end.

Definition final_world (r : list world * outcome) : option world :=
  match snd r with Done w => Some w | _ => None end.

Definition root_out (r : list world * outcome) : list event :=
  match final_world r with
  | Some w => root_events w
  | None => []
  end.

(** The step indices of the summary lines, in the order printed. *)
Fixpoint steps_printed (evs : list event) : list Z :=
  match evs with
  | [] => []
  | EvStep s _ _ :: rest => s :: steps_printed rest
  | _ :: rest => steps_printed rest
  end.

(** The root's gather buffer after the iteration numbered [k] of a run. *)
Definition gathered_at (r : list world * outcome) (k : nat) : option (list Z) :=
  match nth_error (fst r) k with
  | Some w => root_gather w
  | None => None
  end.

(** [rank * (s + 1)] for rank in [0 .. n). *)
Definition expected_gather (n : nat) (s : Z) : list Z :=
  map (fun r => Z.of_nat r * (s + 1)) (seq 0 n).

End HelloMpi.

(** ** demo/omp_dmtcp_demo.c *)

Module OmpDemo.

(** *** busy_work_ms *)

Record timespec : Type := mkTimespec { tv_sec : Z; tv_nsec : Z }.

(** [uint64_t us = (now.tv_sec - start.tv_sec) * 1000000ULL
                 + (now.tv_nsec - start.tv_nsec) / 1000ULL;]
    both differences are [long] and are converted to [unsigned long long]
    by the unsigned operand. *)
Definition us (start now : timespec) : Z :=
  u64 (u64 (u64 (tv_sec now - tv_sec start) * 1000000)
       + u64 (tv_nsec now - tv_nsec start) / 1000).

(** [const uint64_t target = (uint64_t)ms * 1000ULL;] *)
Definition target (ms : Z) : Z := u64 (u64 ms * 1000).

(** A clock is the sequence of readings the successive calls of
    [clock_gettime(CLOCK_MONOTONIC, _)] return: reading 0 is [start],
    reading [k] the [now] of the k-th turn of the [for (;;)] loop. *)
Definition clock : Type := nat -> timespec.

(** The [for (;;)] loop from its k-th turn on, at most [fuel] turns;
    the result is the turn on which it breaks. *)
Fixpoint poll (clk : clock) (tgt : Z) (start : timespec) (k fuel : nat)
  : option nat :=
  match fuel with
  | O => None
  | S f =>
      let now := clk k in
      if tgt <=? us start now then Some k
      else poll clk tgt start (S k) f
  end.

Definition busy_work_ms (clk : clock) (ms : Z) (fuel : nat) : option nat :=
  poll clk (target ms) (clk O) 1%nat fuel.

(** *** Command line *)

(** Whether [c] is an option character of [optstring], and if so
    whether it takes an argument (is followed by a colon). *)
Fixpoint lookup_opt (optstring : string) (c : ascii) : option bool :=
  match optstring with
  | EmptyString => None
  | String o rest =>
      if Ascii.eqb o c && negb (Ascii.eqb c ":"%char) then
        match rest with
        | String ":"%char _ => Some true
        | _ => Some false
        end
      else lookup_opt rest c
  end.

(** One return of [getopt]: the option character and [optarg]
    (empty when the option takes none). *)
Definition opt_ret : Type := (ascii * string)%type.

(** The returns [getopt] gives for the option characters [s] of one
    argv element; [next] is the argv element after it, and the flag
    tells whether that element was taken as an option argument. *)
Fixpoint scan_cluster (optstring s : string) (next : option string)
  : list opt_ret * bool :=
  match s with
  | EmptyString => ([], false)
  | String c rest =>
      match lookup_opt optstring c with
      | None =>
          let (l, used) := scan_cluster optstring rest next in
          (("?"%char, EmptyString) :: l, used)
      | Some false =>
          let (l, used) := scan_cluster optstring rest next in
          ((c, EmptyString) :: l, used)
      | Some true =>
          match rest, next with
          | String _ _, _ => ([(c, rest)], false)
          | EmptyString, Some a => ([(c, a)], true)
          | EmptyString, None => ([("?"%char, EmptyString)], false)
          end
      end
  end.

(** The option characters of an argv element: it is an option
    element when it starts with '-' and has more after it. *)
Definition option_chars (a : string) : option string :=
  match a with
  | String d (String c rest) =>
      if Ascii.eqb d "-"%char then Some (String c rest) else None
  | _ => None
  end.

(** All the returns of [getopt(argc, argv, optstring)] before -1, for
    the argv elements after [argv[0]], as glibc gives them: elements
    that are not options are passed over, "--" ends the options, an
    unknown option character or a missing argument gives '?'. *)
Fixpoint getopt_all (optstring : string) (args : list string) : list opt_ret :=
  match args with
  | [] => []
  | a :: tl =>
      if String.eqb a "--" then []
      else
        match option_chars a with
        | None => getopt_all optstring tl
        | Some cluster =>
            let (l, used) := scan_cluster optstring cluster (hd_error tl) in
            match used, tl with
            | true, _ :: tl' => l ++ getopt_all optstring tl'
            | _, _ => l ++ getopt_all optstring tl
            end
        end
  end.

Record config : Type := mkConfig {
  steps : Z;
  work_ms : Z;
  state_file : option string
}.

(** [int steps = 60; int work_ms = 25; const char* state_file = NULL;] *)
Definition defaults : config :=
  {| steps := 60; work_ms := 25; state_file := None |}.

Inductive parsed : Type :=
| Run (c : config)
| Usage (code : Z).   (* usage(argv[0]) on stderr, then [return code] *)

(** The [while ((opt = getopt(...)) != -1) switch (opt) ...] loop. *)
Fixpoint options (rets : list opt_ret) (c : config) : parsed :=
  match rets with
  | [] => Run c
  | (opt, optarg) :: rest =>
      if Ascii.eqb opt "s"%char then
        options rest {| steps := atoi optarg; work_ms := work_ms c;
                        state_file := state_file c |}
      else if Ascii.eqb opt "w"%char then
        options rest {| steps := steps c; work_ms := atoi optarg;
                        state_file := state_file c |}
      else if Ascii.eqb opt "F"%char then
        options rest {| steps := steps c; work_ms := work_ms c;
                        state_file := Some optarg |}
      else Usage (if Ascii.eqb opt "h"%char then 0 else 1)
  end.

Definition parse (argv : list string) : parsed :=
  options (getopt_all "s:w:F:h" (tl argv)) defaults.

(** *** The step loop *)

(** One line of the state file:
    ["%s STEP=%d global_counter=%d threads=%d\n"]. *)
Record entry : Type := mkEntry {
  e_time : Z;        (* the [time_t] behind the timestamp *)
  e_step : Z;
  e_counter : Z;
  e_threads : Z
}.

Inductive mode : Type := ModeW | ModeA.   (* "w" | "a" *)

Inductive event : Type :=
| EvBanner (max_threads : Z)          (* "[omp_dmtcp_demo] PID=... | max_threads=%d | ..." *)
| EvThread (step tid nth : Z)         (* "STEP=%d THREAD=%d/%d PID=%ld" *)
| EvDone (steps final_counter : Z).   (* "[omp_dmtcp_demo] DONE: steps=%d final_global_counter=%d" *)

(** What the program does not decide itself. *)
Record host : Type := mkHost {
  max_threads : positive;               (* [omp_get_max_threads()] before the loop *)
  nthreads : Z -> positive;             (* [omp_get_num_threads()] in the region of step [s] *)
  clocks : Z -> nat -> clock;           (* the clock as thread [tid] reads it in step [s] *)
  sched : Z -> list nat;                (* the threads of step [s], in the order their lines reach stdout *)
  fopen_ok : Z -> bool;                 (* does the [fopen] of step [s] succeed *)
  time_at : Z -> Z                      (* [time(NULL)] in step [s] *)
}.

(** The variables that live across iterations, the state file (absent:
    [None]) and stdout. *)
Record state : Type := mkState {
  step : Z;
  global_counter : Z;      (* static int global_counter *)
  file : option (list entry);
  stdout : list event
}.

(** What one iteration did. *)
Record iteration : Type := mkIteration {
  it_step : Z;
  it_counter : Z;
  it_open : option (mode * bool);   (* mode of the [fopen], and whether it succeeded *)
  it_entry : option entry;          (* the line written *)
  it_usleep : Z                     (* microseconds slept in the single block *)
}.

Definition content (f : option (list entry)) : list entry :=
  match f with Some l => l | None => [] end.

(** [(step==0) ? "w" : "a"] *)
Definition open_mode (s : Z) : mode := if s =? 0 then ModeW else ModeA.

(** A successful [fopen]: "w" creates or truncates, "a" creates or keeps. *)
Definition fopen (m : mode) (f : option (list entry)) : option (list entry) :=
  match m with
  | ModeW => Some []
  | ModeA => Some (content f)
  end.

(** [fprintf(f, ...); fclose(f);] *)
Definition fprintf (e : entry) (f : option (list entry)) : option (list entry) :=
  Some (content f ++ [e]).

(** Thread [tid] has come back from [busy_work_ms(work_ms)] within
    [fuel] turns of its loop. *)
Definition returns (h : host) (c : config) (s : Z) (fuel : nat) (tid : nat)
  : bool :=
  match busy_work_ms (clocks h s tid) (work_ms c) fuel with
  | Some _ => true
  | None => false
  end.

(** Every thread of the team has: the barrier lets the team through. *)
Definition team_returns (h : host) (c : config) (s : Z) (fuel : nat) : bool :=
  forallb (returns h c s fuel) (seq 0 (Pos.to_nat (nthreads h s))).

(** [printf("STEP=%d THREAD=%d/%d PID=%ld\n", step, tid, nth, ...)] *)
Definition thread_line (h : host) (s : Z) (tid : nat) : event :=
  EvThread s (Z.of_nat tid) (Zpos (nthreads h s)).

(** The lines of a whole team, in the order the scheduler gives them. *)
Definition thread_lines (h : host) (s : Z) : list event :=
  map (thread_line h s) (sched h s).

(** The lines on stdout when every thread has had [fuel] turns: a
    thread prints right after its own [busy_work_ms], before the
    barrier, so the line of a thread still in its loop is missing. *)
Definition printed (h : host) (c : config) (s : Z) (fuel : nat) : list event :=
  map (thread_line h s) (filter (returns h c s fuel) (sched h s)).

(** The region up to the barrier. *)
Definition before_barrier (h : host) (c : config) (fuel : nat) (st : state)
  : state :=
  {| step := step st; global_counter := global_counter st; file := file st;
     stdout := stdout st ++ printed h c (step st) fuel |}.

(** The [#pragma omp single] block. *)
Definition single (h : host) (c : config) (st : state) : state * iteration :=
  let s := step st in
  let result opened written f :=
    ({| step := s; global_counter := global_counter st; file := f;
        stdout := stdout st |},
     {| it_step := s; it_counter := global_counter st; it_open := opened;
        it_entry := written; it_usleep := 2000 * 1000 |}) in
  match state_file c with
  | None => result None None (file st)
  | Some _ =>
      let m := open_mode s in
      if fopen_ok h s then
        let e := {| e_time := time_at h s; e_step := s;
                    e_counter := global_counter st;
                    e_threads := Zpos (nthreads h s) |} in
        result (Some (m, true)) (Some e) (fprintf e (fopen m (file st)))
      else result (Some (m, false)) None (file st)
  end.

(** The [#pragma omp parallel] region of one iteration; [None] when a
    thread is still in [busy_work_ms] after [fuel] turns, and the team
    waits at the barrier. *)
Definition parallel_region (h : host) (c : config) (fuel : nat) (st : state)
  : option (state * iteration) :=
  if team_returns h c (step st) fuel then
    Some (single h c (before_barrier h c fuel st))
  else None.

(** [++step, ++global_counter] *)
Definition advance (st : state) : state :=
  {| step := wrap32 (step st + 1);
     global_counter := wrap32 (global_counter st + 1);
     file := file st; stdout := stdout st |}.

Inductive outcome : Type :=
| Done (st : state)        (* [return 0] after the DONE line *)
| Exited (code : Z)        (* usage, [return code] *)
| Spinning (st : state)    (* a thread never left [busy_work_ms] within the fuel;
                              [st] has the lines of those that did *)
| OutOfFuel (st : state).

(** The DONE line. *)
Definition done (c : config) (st : state) : state :=
  {| step := step st; global_counter := global_counter st; file := file st;
     stdout := stdout st ++ [EvDone (steps c) (global_counter st)] |}.

(** [for (...; step < steps; ++step, ++global_counter) { ... }]:
    [n] bounds the iterations, [fuel] the turns of each busy loop. *)
Fixpoint loop (h : host) (c : config) (fuel n : nat) (st : state)
  : list iteration * outcome :=
  if step st <? steps c then
    match n with
    | O => ([], OutOfFuel st)
    | S n' =>
        match parallel_region h c fuel st with
        | Some (st', it) =>
            let (hist, o) := loop h c fuel n' (advance st') in (it :: hist, o)
        | None => ([], Spinning (before_barrier h c fuel st))
        end
    end
  else ([], Done (done c st)).

(** The loop taken up at state [st]: a fresh run enters it with
    [step = 0], a revived one with the values of the checkpoint. *)
Definition run_from (h : host) (c : config) (fuel : nat) (st : state)
  : list iteration * outcome :=
  loop h c fuel (Z.to_nat (steps c - step st)) st.

(** [int step = 0] and the zero-initialised [global_counter], after
    the banner with [max_threads = omp_get_max_threads()]. *)
Definition init_state (h : host) (f : option (list entry)) : state :=
  {| step := 0; global_counter := 0; file := f;
     stdout := [EvBanner (Zpos (max_threads h))] |}.

(** [main]; [f] is the state file as the run finds it. *)
Definition main (h : host) (argv : list string) (f : option (list entry))
  (fuel : nat) : list iteration * outcome :=
  match parse argv with
  | Usage code => ([], Exited code)
  | Run c => run_from h c fuel (init_state h f)
  end.

(** Observations on a run. *)

Definition entries_written (hist : list iteration) : list entry :=
  flat_map (fun it => match it_entry it with Some e => [e] | None => [] end) hist.

End OmpDemo.

(** ** Invariants of the coordinator-worker engine *)

Module MpiInv.
Import HelloMpi.

(** All [n] ranks stand at the loop head with the same counter [c] and
    the configuration read from [e]. *)
Definition lockstep (e : environ) (n : nat) (c : Z) (w : world) : Prop :=
  map rank w = map Z.of_nat (seq 0 n) /\
  Forall (fun p => size p = Z.of_nat n /\ counter p = c /\
                   max_steps p = config_max_steps e /\
                   sleep_ms p = config_sleep_ms e) w.

(** What the [int] arithmetic of [my_value = rank * (step + 1)] gives
    on ranks [0 .. n) in step [s]. *)
Definition int_gather (n : nat) (s : Z) : list Z :=
  map (fun r => wrap32 (Z.of_nat r * wrap32 (s + 1))) (seq 0 n).

(** The worlds after the iterations [c], [c+1], ... of a run. *)
Fixpoint trace_ok (e : environ) (n : nat) (c : Z) (hist : list world) : Prop :=
  match hist with
  | [] => True
  | w :: rest =>
      lockstep e n (c + 1) w /\
      root_gather w = Some (int_gather n c) /\
      Forall (fun p => step p = c) w /\
      trace_ok e n (c + 1) rest
  end.

End MpiInv.

(** ** Invariants of the thread-barrier engine *)

Module OmpInv.
Import OmpDemo.

(** Nanoseconds really gone by between two readings. *)
Definition elapsed_ns (start now : timespec) : Z :=
  (tv_sec now - tv_sec start) * 10 ^ 9 + (tv_nsec now - tv_nsec start).

(** Two readings of a monotonic clock as the kernel hands them out:
    normalised nanoseconds, [now] not before [start], and less than
    [2^43] seconds apart. *)
Definition reading_ok (start now : timespec) : Prop :=
  0 <= tv_nsec start < 10 ^ 9 /\ 0 <= tv_nsec now < 10 ^ 9 /\
  0 <= tv_sec now - tv_sec start < 2 ^ 43.

Definition clock_sane (clk : clock) : Prop :=
  forall k : nat, reading_ok (clk O) (clk k).

(** Some turn of the loop sees [ms] milliseconds gone by. *)
Definition clock_reaches (clk : clock) (ms : Z) : Prop :=
  exists k : nat, (1 <= k)%nat /\ reading_ok (clk O) (clk k) /\
                  ms * 10 ^ 6 <= elapsed_ns (clk O) (clk k).

Definition terminates (clk : clock) (ms : Z) : Prop :=
  exists fuel k, busy_work_ms clk ms fuel = Some k.

(** Every thread's clock reaches [work_ms] in every step of the run. *)
Definition team_clocks_reach (h : host) (c : config) : Prop :=
  forall (s : Z) (tid : nat),
    0 <= s < steps c -> (tid < Pos.to_nat (nthreads h s))%nat ->
    clock_reaches (clocks h s tid) (work_ms c).

(** The executions of the step loop, as a relation. *)
Inductive runs (h : host) (c : config) (fuel : nat)
  : state -> list iteration -> outcome -> Prop :=
| runs_done st :
    steps c <= step st -> runs h c fuel st [] (Done (done c st))
| runs_spin st :
    step st < steps c -> parallel_region h c fuel st = None ->
    runs h c fuel st [] (Spinning (before_barrier h c fuel st))
| runs_stop st :
    step st < steps c -> runs h c fuel st [] (OutOfFuel st)
| runs_iter st st' it hist o :
    step st < steps c -> parallel_region h c fuel st = Some (st', it) ->
    runs h c fuel (advance st') hist o ->
    runs h c fuel st (it :: hist) o.

(** The state a run stopped in, and the state file it left. *)
Definition last_state (o : outcome) : option state :=
  match o with
  | Done st | Spinning st | OutOfFuel st => Some st
  | Exited _ => None
  end.

Definition log_of (r : list iteration * outcome) : list entry :=
  match last_state (snd r) with
  | Some st => content (file st)
  | None => []
  end.

Definition last_line (r : list iteration * outcome) : option event :=
  match last_state (snd r) with
  | Some st => last (map Some (stdout st)) None
  | None => None
  end.

(** A clock that advances one second per reading (and stands still
    after [2^40] seconds). *)
Definition second_clock : clock :=
  fun k => {| tv_sec := Z.min (Z.of_nat k) (2 ^ 40); tv_nsec := 0 |}.

(** The scheduler's order lists every thread of the team once, in
    every step of the run. *)
Definition sched_ok (h : host) (c : config) : Prop :=
  forall s, 0 <= s < steps c ->
    Permutation (sched h s) (seq 0 (Pos.to_nat (nthreads h s))).

(** A host with two threads that print in the order of their numbers,
    every [fopen] succeeding. *)
Definition demo_host : host :=
  {| max_threads := 2; nthreads := fun _ => 2%positive;
     clocks := fun _ _ => second_clock; sched := fun _ => [0; 1]%nat;
     fopen_ok := fun _ => true; time_at := fun s => 1700000000 + 2 * s |}.

End OmpInv.

(** ** What the ranks of the coordinator-worker engine write *)

Module MpiObs.
Import HelloMpi MpiInv.

(** The summary line of step [s] with [n] ranks. *)
Definition step_line (n : nat) (s : Z) : event :=
  EvStep s (firstn 8 (int_gather n s))
         (if (8 <? n)%nat then Some (Z.of_nat n - 8) else None).

(** The argument [usleep] is called with for a delay of [ms] milliseconds. *)
Definition usleep_arg (ms : Z) : Z := (ms * 1000) mod 2 ^ 32.

(** The pacing sleep of one iteration. *)
Definition pacing (e : environ) : list event :=
  if 0 <? config_sleep_ms e then [EvUsleep (usleep_arg (config_sleep_ms e))] else [].

(** What rank [r] writes and sleeps in the iterations from counter [c] on. *)
Definition rank_script (e : environ) (n : nat) (r c : Z) : list event :=
  flat_map (fun s => (if r =? 0 then [step_line n s] else []) ++ pacing e)
           (zrange c (config_max_steps e)).

Definition finish_line (r c : Z) : list event :=
  if r =? 0 then [EvFinish c] else [].

(** The arguments of the sleeps among [evs], and the lines among [evs]. *)
Fixpoint sleeps (evs : list event) : list Z :=
  match evs with
  | [] => []
  | EvUsleep u :: rest => u :: sleeps rest
  | _ :: rest => sleeps rest
  end.

Fixpoint lines (evs : list event) : list event :=
  match evs with
  | [] => []
  | EvUsleep _ :: rest => lines rest
  | ev :: rest => ev :: lines rest
  end.

(** The gather buffer of a rank other than the root. *)
Definition worker_buf (p : proc) : option (list Z) :=
  if rank p =? 0 then None else gather_buf p.

(** Rank, output and worker buffer of a process. *)
Definition observed (p : proc) : Z * list event * option (list Z) :=
  (rank p, out p, worker_buf p).

End MpiObs.

(** ** What the thread-barrier engine leaves behind *)

Module OmpObs.
Import OmpDemo OmpInv.

(** The line a fresh run writes for step [s]. *)
Definition entry_of (h : host) (s : Z) : entry :=
  {| e_time := time_at h s; e_step := s; e_counter := s;
     e_threads := Zpos (nthreads h s) |}.

(** The returns of [getopt] on which the switch carries on. *)
Definition carries_on (r : opt_ret) : bool :=
  Ascii.eqb (fst r) "s"%char || Ascii.eqb (fst r) "w"%char
  || Ascii.eqb (fst r) "F"%char.

(** The argument of the last return for option [o]. *)
Fixpoint last_arg (o : ascii) (rets : list opt_ret) : option string :=
  match rets with
  | [] => None
  | (o', a) :: rest =>
      match last_arg o rest with
      | Some x => Some x
      | None => if Ascii.eqb o' o then Some a else None
      end
  end.

(** A state and an outcome with the state file left out. *)
Definition forget_file (st : state) : state :=
  {| step := step st; global_counter := global_counter st; file := None;
     stdout := stdout st |}.

Definition progress (o : outcome) : outcome :=
  match o with
  | Done st => Done (forget_file st)
  | Exited code => Exited code
  | Spinning st => Spinning (forget_file st)
  | OutOfFuel st => OutOfFuel (forget_file st)
  end.

(** The same host with other answers of [fopen] and [time]. *)
Definition with_io (h : host) (ok : Z -> bool) (t : Z -> Z) : host :=
  {| max_threads := max_threads h; nthreads := nthreads h; clocks := clocks h;
     sched := sched h; fopen_ok := ok; time_at := t |}.

(** The command line that gives each option of [l] with its argument
    as the next element: [-o1 a1 -o2 a2 ...]. *)
Definition flags (l : list opt_ret) : list string :=
  flat_map (fun r => [String "-" (String (fst r) EmptyString); snd r]) l.

(** A clock first read at 10.9 s and then every 0.2 s. *)
Definition late_start_clock : clock :=
  fun k =>
    let ns := 10900000000 + 200000000 * Z.of_nat k in
    {| tv_sec := ns / 1000000000; tv_nsec := ns mod 1000000000 |}.

(** A clock that steps back by half a microsecond after its first
    reading. *)
Definition backstep_clock : clock :=
  fun k =>
    match k with
    | O => {| tv_sec := 1; tv_nsec := 0 |}
    | S _ => {| tv_sec := 0; tv_nsec := 999999500 |}
    end.

(** A host that allows four threads and gives a team of two, thread 1
    printing first and reading the clock that steps back. *)
Definition uneven_host : host :=
  {| max_threads := 4; nthreads := fun _ => 2%positive;
     clocks := fun _ tid => if (tid =? 1)%nat then backstep_clock else second_clock;
     sched := fun _ => [1; 0]%nat;
     fopen_ok := fun _ => true; time_at := fun s => 1700000000 + 2 * s |}.

End OmpObs.

(** ** Machine-integer facts *)

(** Goals about the bounds of [int]. *)
Ltac int_lia := unfold is_int, INT_MIN, INT_MAX in *; lia.

Lemma wrap32_range (z : Z) : is_int (wrap32 z).
Proof.
  unfold is_int, wrap32, INT_MIN, INT_MAX.
  pose proof (Z.mod_pos_bound (z + 2 ^ 31) (2 ^ 32) ltac:(lia)). lia.
Qed.

Lemma wrap32_id (z : Z) : is_int z -> wrap32 z = z.
Proof.
  unfold is_int, wrap32, INT_MIN, INT_MAX. intros H.
  rewrite Z.mod_small; lia.
Qed.

Lemma atoi_range (s : string) : is_int (atoi s).
Proof. apply wrap32_range. Qed.

Create HintDb ints.
#[export] Hint Resolve wrap32_range atoi_range : ints.

Lemma zrange_nil (c m : Z) : m <= c -> zrange c m = [].
Proof. intros H. unfold zrange. replace (Z.to_nat (m - c)) with O by lia. reflexivity. Qed.

Lemma zrange_cons (c m : Z) : c < m -> zrange c m = c :: zrange (c + 1) m.
Proof.
  intros H. unfold zrange.
  replace (Z.to_nat (m - c)) with (S (Z.to_nat (m - (c + 1)))) by lia.
  cbn [seq map]. f_equal; [lia|].
  rewrite <- seq_shift, map_map. apply map_ext. intros k. lia.
Qed.

Lemma zrange_In (c m x : Z) : In x (zrange c m) <-> c <= x < m.
Proof.
  unfold zrange. rewrite in_map_iff. split.
  - intros [k [<- Hk]]. apply in_seq in Hk. lia.
  - intros Hx. exists (Z.to_nat (x - c)). split; [lia|]. apply in_seq. lia.
Qed.


(** ** Configuration of the coordinator-worker engine *)

Section MpiFacts.
Import HelloMpi MpiInv.

Lemma config_max_steps_eq (e : environ) :
  config_max_steps e =
  match getenv e "MAX_STEPS" with
  | Some v => Z.max 1 (atoi v)
  | None => 120
  end.
Proof.
  unfold config_max_steps.
  destruct (getenv e "MAX_STEPS") as [v|]; [|reflexivity].
  cbv zeta. destruct (Z.ltb_spec (atoi v) 1); lia.
Qed.

Lemma config_sleep_ms_eq (e : environ) :
  config_sleep_ms e =
  match getenv e "SLEEP_MS" with
  | Some v => Z.max 0 (atoi v)
  | None => 1000
  end.
Proof.
  unfold config_sleep_ms.
  destruct (getenv e "SLEEP_MS") as [v|]; [|reflexivity].
  cbv zeta. destruct (Z.ltb_spec (atoi v) 0); lia.
Qed.

Lemma config_max_steps_range (e : environ) :
  1 <= config_max_steps e <= INT_MAX.
Proof.
  rewrite config_max_steps_eq.
  destruct (getenv e "MAX_STEPS") as [v|].
  - pose proof (atoi_range v) as H. int_lia.
  - int_lia.
Qed.

Lemma config_sleep_ms_range (e : environ) :
  0 <= config_sleep_ms e <= INT_MAX.
Proof.
  rewrite config_sleep_ms_eq.
  destruct (getenv e "SLEEP_MS") as [v|].
  - pose proof (atoi_range v) as H. int_lia.
  - int_lia.
Qed.

(** ** One iteration of the coordinator-worker engine *)

Lemma steps_printed_app (l1 l2 : list event) :
  steps_printed (l1 ++ l2) = steps_printed l1 ++ steps_printed l2.
Proof.
  induction l1 as [|ev l1 IH]; [reflexivity|].
  destruct ev; cbn; rewrite IH; reflexivity.
Qed.

Lemma int_gather_exact (n : nat) (s : Z) :
  0 <= s < INT_MAX -> (Z.of_nat n - 1) * (s + 1) <= INT_MAX ->
  int_gather n s = expected_gather n s.
Proof.
  intros Hs Hb. unfold int_gather, expected_gather.
  apply map_ext_in. intros r Hr. apply in_seq in Hr.
  rewrite (wrap32_id (s + 1)) by int_lia.
  apply wrap32_id. unfold is_int, INT_MIN, INT_MAX in *. nia.
Qed.

Section Lockstep.

(** The environment the ranks were launched in, and their number. *)
Variable e : environ.
Variable n : nat.

Lemma lockstep_world_at (c : Z) : lockstep e n c (world_at e n c).
Proof.
  unfold lockstep, world_at. split.
  - rewrite map_map. reflexivity.
  - apply Forall_forall. intros p Hp. apply in_map_iff in Hp.
    destruct Hp as [r [<- _]]. cbn. auto.
Qed.

(** Printing does not touch what [lockstep] speaks of. *)
Lemma lockstep_start (c : Z) (w : world) :
  lockstep e n c w -> lockstep e n c (map start w).
Proof.
  intros [Hr Hf]. split.
  - rewrite map_map. exact Hr.
  - apply Forall_map. eapply Forall_impl; [|exact Hf]. intros p Hp. exact Hp.
Qed.

Lemma lockstep_finish (c : Z) (w : world) :
  lockstep e n c w -> lockstep e n c (map finish w).
Proof.
  intros [Hr Hf]. split.
  - rewrite map_map. exact Hr.
  - apply Forall_map. eapply Forall_impl; [|exact Hf]. intros p Hp. exact Hp.
Qed.

Lemma lockstep_init : lockstep e n 0 (init_world e n).
Proof. apply lockstep_start, lockstep_world_at. Qed.

Lemma trace_ok_nth (hist : list world) :
  forall (c : Z) (k : nat) (w : world),
    trace_ok e n c hist -> nth_error hist k = Some w ->
    lockstep e n (c + Z.of_nat k + 1) w /\
    root_gather w = Some (int_gather n (c + Z.of_nat k)) /\
    Forall (fun p => step p = c + Z.of_nat k) w.
Proof.
  induction hist as [|w0 hist IH]; intros c k w Ht Hk.
  - destruct k; discriminate.
  - destruct Ht as [Hl [Hg [Hs Ht]]]. destruct k as [|k].
    + injection Hk as <-. rewrite Z.add_0_r. auto.
    + cbn in Hk. destruct (IH (c + 1) k w Ht Hk) as [Hl' [Hg' Hs']].
      replace (c + Z.of_nat (S k)) with (c + 1 + Z.of_nat k) by lia. auto.
Qed.

(** From here on there is at least one rank. *)
Hypothesis Hn : (1 <= n)%nat.

(** The head of a lockstep world is the root. *)
Lemma lockstep_nonempty (c : Z) (w : world) :
  lockstep e n c w ->
  exists p0 rest, w = p0 :: rest /\ rank p0 = 0 /\ counter p0 = c /\
                  max_steps p0 = config_max_steps e /\
                  size p0 = Z.of_nat n.
Proof.
  intros [Hr Hf].
  assert (Hseq : seq 0 n = O :: seq 1 (n - 1))
    by (replace n with (S (n - 1)) at 1 by lia; reflexivity).
  rewrite Hseq in Hr. destruct w as [|p0 rest]; [discriminate|].
  exists p0, rest. cbn in Hr. injection Hr as Hr0 _.
  inversion Hf as [|? ? [Hs [Hc [Hm _]]] _]. subst. auto.
Qed.

Lemma root_events_init : root_events (init_world e n) = [EvStart (Z.of_nat n)].
Proof.
  assert (Hseq : seq 0 n = O :: seq 1 (n - 1))
    by (replace n with (S (n - 1)) at 1 by lia; reflexivity).
  unfold init_world, world_at. rewrite Hseq. reflexivity.
Qed.

Lemma root_events_finish (c : Z) (w : world) :
  lockstep e n c w ->
  root_events (map finish w) = root_events w ++ [EvFinish c].
Proof.
  intros Hl.
  destruct (lockstep_nonempty c w Hl) as [p0 [rest [Hw [Hr0 [Hc0 _]]]]].
  rewrite Hw. cbn. rewrite Hr0, Hc0. reflexivity.
Qed.

Lemma forallb_in_loop (c : Z) (w : world) :
  lockstep e n c w ->
  (c < config_max_steps e -> forallb in_loop w = true) /\
  (config_max_steps e <= c ->
   forallb (fun p => negb (in_loop p)) w = true).
Proof.
  intros [_ Hf]. split; intros Hc; apply forallb_forall; intros p Hp;
    rewrite Forall_forall in Hf; destruct (Hf p Hp) as [_ [Hcp [Hm _]]];
    unfold in_loop; rewrite Hcp, Hm.
  - apply Z.ltb_lt. exact Hc.
  - apply negb_true_iff, Z.ltb_ge. exact Hc.
Qed.

(** What the root receives is what the [int] arithmetic gives. *)
Lemma gathered_lockstep (c : Z) (w : world) :
  lockstep e n c w ->
  gathered (map compute (map (bcast c) w)) = int_gather n c.
Proof.
  intros [Hr Hf]. unfold gathered, int_gather.
  rewrite !map_map.
  rewrite <- (map_map Z.of_nat (fun r => wrap32 (r * wrap32 (c + 1)))), <- Hr.
  rewrite map_map. apply map_ext_in. intros p Hp.
  rewrite Forall_forall in Hf. destruct (Hf p Hp) as [_ [Hc _]].
  cbn. rewrite Hc. destruct (rank p =? 0); reflexivity.
Qed.

Lemma world_step_lockstep (c : Z) (w : world) :
  lockstep e n c w -> 0 <= c < config_max_steps e ->
  exists w',
    world_step w = Advanced w' /\
    lockstep e n (c + 1) w' /\
    root_gather w' = Some (int_gather n c) /\
    Forall (fun p => step p = c) w' /\
    map counter w' = map (fun p => counter p + 1) w /\
    exists new, root_events w' = root_events w ++ new /\ steps_printed new = [c].
Proof.
  intros Hl Hc.
  destruct (lockstep_nonempty c w Hl) as [p0 [rest [Hw [Hr0 [Hc0 _]]]]].
  pose proof (config_max_steps_range e) as Hm.
  assert (Hwrap : wrap32 (c + 1) = c + 1) by (apply wrap32_id; int_lia).
  unfold world_step.
  destruct (forallb_in_loop c w Hl) as [Hin _]. rewrite (Hin (proj2 Hc)).
  replace (match w with p1 :: _ => counter p1 | [] => 0 end) with c
    by (rewrite Hw; symmetry; exact Hc0).
  rewrite (gathered_lockstep c w Hl).
  eexists. split; [reflexivity|].
  destruct Hl as [Hr Hf]. rewrite Forall_forall in Hf.
  split; [split|split; [|split; [|split]]].
  - rewrite !map_map. cbn. exact Hr.
  - rewrite !Forall_map. apply Forall_forall. intros p Hp.
    destruct (Hf p Hp) as [Hs [Hcp [Hmp Hsl]]]. cbn. rewrite Hcp. auto.
  - rewrite Hw. cbn. rewrite Hr0. reflexivity.
  - rewrite !Forall_map. apply Forall_forall. intros p Hp.
    destruct (Hf p Hp) as [_ [Hcp _]]. cbn. rewrite Hcp.
    destruct (rank p =? 0); reflexivity.
  - rewrite !map_map. apply map_ext_in. intros p Hp.
    destruct (Hf p Hp) as [_ [Hcp _]]. cbn. rewrite Hcp. exact Hwrap.
  - rewrite Hw. cbn. rewrite Hr0. cbn. eexists. split; [reflexivity|].
    cbn. rewrite Hr0, Hc0. destruct (0 <? sleep_ms p0); reflexivity.
Qed.

Lemma world_step_finished (c : Z) (w : world) :
  lockstep e n c w -> config_max_steps e <= c -> world_step w = Finished.
Proof.
  intros Hl Hc.
  destruct (lockstep_nonempty c w Hl) as [p0 [rest [Hw [_ [Hc0 [Hm0 _]]]]]].
  unfold world_step.
  destruct (forallb_in_loop c w Hl) as [_ Hout]. rewrite (Hout Hc).
  replace (forallb in_loop w) with false; [reflexivity|].
  rewrite Hw. cbn. unfold in_loop at 1. rewrite Hc0, Hm0.
  symmetry. apply andb_false_intro1, Z.ltb_ge. exact Hc.
Qed.

(** The loop from a lockstep world: it ends on every rank, after
    [max_steps - c] iterations, each of them in lockstep. *)
Lemma run_loop_lockstep :
  forall (fuel : nat) (c : Z) (w : world),
    lockstep e n c w -> 0 <= c ->
    (Z.to_nat (config_max_steps e - c) <= fuel)%nat ->
    exists hist wf,
      run_loop fuel w = (hist, Done (map finish wf)) /\
      lockstep e n (Z.max c (config_max_steps e)) wf /\
      trace_ok e n c hist /\
      length hist = Z.to_nat (config_max_steps e - c) /\
      exists new, root_events wf = root_events w ++ new /\
                  steps_printed new = zrange c (config_max_steps e).
Proof.
  assert (Hstop : forall fuel c w,
             lockstep e n c w -> config_max_steps e <= c ->
             exists hist wf,
               run_loop fuel w = (hist, Done (map finish wf)) /\
               lockstep e n (Z.max c (config_max_steps e)) wf /\
               trace_ok e n c hist /\
               length hist = Z.to_nat (config_max_steps e - c) /\
               exists new, root_events wf = root_events w ++ new /\
                           steps_printed new = zrange c (config_max_steps e)).
  { intros fuel c w Hl Hge. exists [], w.
    replace (run_loop fuel w) with (@nil world, Done (map finish w))
      by (destruct fuel; cbn [run_loop];
          rewrite (world_step_finished c w Hl Hge); reflexivity).
    rewrite Z.max_l by lia. rewrite zrange_nil by lia.
    refine (conj eq_refl (conj Hl (conj I (conj _ _)))); [cbn; lia|].
    exists []. rewrite app_nil_r. auto. }
  induction fuel as [|f IH]; intros c w Hl Hc Hfuel.
  - apply Hstop; [exact Hl|lia].
  - destruct (Z.lt_ge_cases c (config_max_steps e)) as [Hlt|Hge];
      [|apply Hstop; assumption].
    destruct (world_step_lockstep c w Hl (conj Hc Hlt))
      as [w' [Hstep [Hl' [Hg [Hs [_ [new1 [Hp Hp1]]]]]]]].
    destruct (IH (c + 1) w' Hl' ltac:(lia) ltac:(lia))
      as [hist [wf [Hrun [Hlf [Ht [Hlen [new2 [Hpf Hp2]]]]]]]].
    exists (w' :: hist), wf. cbn [run_loop]. rewrite Hstep, Hrun.
    rewrite Z.max_r in * by lia.
    refine (conj eq_refl (conj Hlf (conj _ (conj _ _)))).
    + cbn [trace_ok]. auto.
    + cbn [length]. rewrite Hlen. lia.
    + exists (new1 ++ new2). split; [rewrite Hpf, Hp, app_assoc; reflexivity|].
      rewrite steps_printed_app, Hp1, Hp2. symmetry. apply zrange_cons. lia.
Qed.

Lemma remaining_lockstep (c : Z) (w : world) :
  lockstep e n c w -> remaining w = Z.to_nat (config_max_steps e - c).
Proof.
  intros Hl.
  destruct (lockstep_nonempty c w Hl) as [p0 [rest [Hw [_ [Hc0 [Hm0 _]]]]]].
  rewrite Hw. cbn. rewrite Hc0, Hm0. reflexivity.
Qed.

(** [run] gives the loop the fuel it needs. *)
Lemma run_lockstep (c : Z) (w : world) :
  lockstep e n c w -> 0 <= c ->
  exists hist wf,
    run w = (hist, Done (map finish wf)) /\
    lockstep e n (Z.max c (config_max_steps e)) wf /\
    trace_ok e n c hist /\
    length hist = Z.to_nat (config_max_steps e - c) /\
    exists new, root_events wf = root_events w ++ new /\
                steps_printed new = zrange c (config_max_steps e).
Proof.
  intros Hl Hc. unfold run.
  apply run_loop_lockstep; auto.
  rewrite (remaining_lockstep c w Hl). lia.
Qed.

(** What the root holds after iteration [s] of a fresh run, as the
    [int] arithmetic computes it. *)
Lemma gathered_at_int (s : Z) :
  0 <= s < config_max_steps e ->
  gathered_at (main e n) (Z.to_nat s) = Some (int_gather n s).
Proof.
  intros Hs. unfold main.
  destruct (run_lockstep 0 (init_world e n) lockstep_init ltac:(lia))
    as [hist [wf [Hrun [_ [Ht [Hlen _]]]]]].
  unfold gathered_at. rewrite Hrun. cbn [fst].
  destruct (nth_error hist (Z.to_nat s)) as [w|] eqn:Hnth.
  - destruct (trace_ok_nth hist 0 (Z.to_nat s) w Ht Hnth) as [_ [Hg _]].
    rewrite Hg. do 2 f_equal. lia.
  - apply nth_error_None in Hnth. lia.
Qed.

End Lockstep.

End MpiFacts.

(** ** busy_work_ms *)

Section BusyWork.
Import OmpDemo OmpInv.

Lemma u64_small (z : Z) : 0 <= z < 2 ^ 64 -> u64 z = z.
Proof. intros H. unfold u64. apply Z.mod_small. exact H. Qed.

Lemma u64_neg (z : Z) : - 2 ^ 64 <= z < 0 -> u64 z = z + 2 ^ 64.
Proof.
  intros H. unfold u64. symmetry.
  apply (Z.mod_unique z (2 ^ 64) (-1)); lia.
Qed.

Lemma target_nonneg (ms : Z) : 0 <= ms <= INT_MAX -> target ms = ms * 1000.
Proof.
  unfold target, INT_MAX. intros H.
  rewrite (u64_small ms) by lia. apply u64_small. lia.
Qed.

Lemma target_neg (ms : Z) :
  INT_MIN <= ms < 0 -> target ms = 2 ^ 64 + ms * 1000.
Proof.
  unfold target, INT_MIN. intros H.
  rewrite (u64_neg ms) by lia.
  unfold u64. symmetry.
  apply (Z.mod_unique _ (2 ^ 64) 999); lia.
Qed.

(** The value the code computes for [us], without the reductions. *)
Lemma us_eq (start now : timespec) :
  reading_ok start now ->
  us start now
  = (tv_sec now - tv_sec start) * 1000000
    + (if tv_nsec now - tv_nsec start <? 0
       then (tv_nsec now - tv_nsec start + 2 ^ 64) / 1000
       else (tv_nsec now - tv_nsec start) / 1000).
Proof.
  intros [Hs [Hn Hd]]. unfold us.
  set (ds := tv_sec now - tv_sec start) in *.
  set (dn := tv_nsec now - tv_nsec start) in *.
  assert (Hdn : - 10 ^ 9 < dn < 10 ^ 9) by (subst dn; lia).
  rewrite (u64_small ds) by lia.
  rewrite (u64_small (ds * 1000000)) by lia.
  destruct (Z.ltb_spec dn 0) as [Hneg|Hpos].
  - rewrite (u64_neg dn) by lia.
    assert (0 <= (dn + 2 ^ 64) / 1000 <= 2 ^ 64 / 1000).
    { split; [apply Z.div_pos; lia|apply Z.div_le_mono; lia]. }
    apply u64_small.
    change (2 ^ 64 / 1000) with 18446744073709551 in *. lia.
  - rewrite (u64_small dn) by lia.
    assert (0 <= dn / 1000 <= 10 ^ 9 / 1000).
    { split; [apply Z.div_pos; lia|apply Z.div_le_mono; lia]. }
    apply u64_small.
    change (10 ^ 9 / 1000) with 1000000 in *. lia.
Qed.

(** Once [ms] milliseconds have gone by the loop test succeeds. *)
Lemma elapsed_reaches_target (start now : timespec) (ms : Z) :
  reading_ok start now -> 0 <= ms <= INT_MAX ->
  ms * 10 ^ 6 <= elapsed_ns start now ->
  target ms <= us start now.
Proof.
  intros Hok Hms Hel.
  rewrite (target_nonneg ms Hms), (us_eq start now Hok).
  destruct Hok as [Hs [Hn Hd]]. unfold elapsed_ns, INT_MAX in *.
  set (ds := tv_sec now - tv_sec start) in *.
  set (dn := tv_nsec now - tv_nsec start) in *.
  destruct (Z.ltb_spec dn 0) as [Hneg|Hpos].
  - assert ((2 ^ 64 - 10 ^ 9) / 1000 <= (dn + 2 ^ 64) / 1000)
      by (apply Z.div_le_mono; subst dn; lia).
    change ((2 ^ 64 - 10 ^ 9) / 1000) with 18446744072709551 in *. lia.
  - assert (ms * 1000 - ds * 1000000 <= dn / 1000)
      by (apply Z.div_le_lower_bound; lia).
    lia.
Qed.

(** For a negative [ms] the test never succeeds on a sane clock. *)
Lemma elapsed_below_negative_target (start now : timespec) (ms : Z) :
  reading_ok start now -> INT_MIN <= ms < 0 ->
  us start now < target ms.
Proof.
  intros Hok Hms.
  rewrite (target_neg ms Hms), (us_eq start now Hok).
  destruct Hok as [Hs [Hn Hd]]. unfold INT_MIN in *.
  set (ds := tv_sec now - tv_sec start) in *.
  set (dn := tv_nsec now - tv_nsec start) in *.
  destruct (Z.ltb_spec dn 0) as [Hneg|Hpos].
  - assert ((dn + 2 ^ 64) / 1000 <= 2 ^ 64 / 1000)
      by (apply Z.div_le_mono; lia).
    change (2 ^ 64 / 1000) with 18446744073709551 in *. lia.
  - assert (dn / 1000 <= 10 ^ 9 / 1000)
      by (apply Z.div_le_mono; subst dn; lia).
    change (10 ^ 9 / 1000) with 1000000 in *. lia.
Qed.

Lemma poll_none (clk : clock) (tgt : Z) (start : timespec) :
  (forall k, us start (clk k) < tgt) ->
  forall fuel k0, poll clk tgt start k0 fuel = None.
Proof.
  intros H. induction fuel as [|f IH]; intros k0; [reflexivity|].
  cbn. destruct (Z.leb_spec tgt (us start (clk k0))) as [Hle|_].
  - specialize (H k0). lia.
  - apply IH.
Qed.

Lemma poll_some (clk : clock) (tgt : Z) (start : timespec) (k : nat) :
  tgt <= us start (clk k) ->
  forall d k0, (k0 + d = k)%nat ->
    exists r, poll clk tgt start k0 (S d) = Some r.
Proof.
  intros H. induction d as [|d IH]; intros k0 Hk.
  - replace k0 with k by lia. cbn.
    destruct (Z.leb_spec tgt (us start (clk k))); [eauto|lia].
  - cbn [poll].
    destruct (tgt <=? us start (clk k0)); [eauto|].
    apply IH. lia.
Qed.

Lemma poll_mono (clk : clock) (tgt : Z) (start : timespec) :
  forall (f f' k0 : nat) (r : nat),
    poll clk tgt start k0 f = Some r -> (f <= f')%nat ->
    poll clk tgt start k0 f' = Some r.
Proof.
  induction f as [|f IH]; intros f' k0 r Hp Hle; [discriminate|].
  destruct f' as [|f']; [lia|]. cbn in *.
  destruct (tgt <=? us start (clk k0)); [exact Hp|].
  apply IH; [exact Hp|lia].
Qed.

Lemma busy_work_ms_returns (clk : clock) (ms : Z) :
  0 <= ms <= INT_MAX -> clock_reaches clk ms -> terminates clk ms.
Proof.
  intros Hms [k [Hk [Hok Hel]]].
  pose proof (elapsed_reaches_target _ _ ms Hok Hms Hel) as Ht.
  destruct (poll_some clk (target ms) (clk O) k Ht (k - 1) 1%nat ltac:(lia))
    as [r Hr].
  exists (S (k - 1)), r. exact Hr.
Qed.

Lemma busy_work_ms_spins (clk : clock) (ms : Z) :
  INT_MIN <= ms < 0 -> clock_sane clk -> ~ terminates clk ms.
Proof.
  intros Hms Hsane [fuel [k Hk]]. unfold busy_work_ms in Hk.
  rewrite poll_none in Hk; [discriminate|].
  intros j. apply elapsed_below_negative_target; auto.
Qed.

End BusyWork.

(** ** The command line of the thread-barrier engine *)

Section OmpFacts.
Import OmpDemo OmpInv.

(** The characters [getopt] hands to the switch: an option character
    of the optstring, or '?'. *)
Lemma scan_cluster_chars (os s : string) (next : option string) :
  Forall (fun r => fst r = "?"%char \/ lookup_opt os (fst r) <> None)
         (fst (scan_cluster os s next)).
Proof.
  induction s as [|ch rest IH]; cbn [scan_cluster]; [constructor|].
  destruct (lookup_opt os ch) as [[|]|] eqn:Hl.
  - destruct rest; [destruct next|]; cbn; (constructor; [|constructor]);
      solve [right; cbn; congruence | left; reflexivity].
  - destruct (scan_cluster os rest next) as [l used]. cbn in *.
    constructor; [right; cbn; congruence|exact IH].
  - destruct (scan_cluster os rest next) as [l used]. cbn in *.
    constructor; [left; reflexivity|exact IH].
Qed.

Lemma getopt_all_chars (os : string) :
  forall (n : nat) (args : list string),
    (length args <= n)%nat ->
    Forall (fun r => fst r = "?"%char \/ lookup_opt os (fst r) <> None)
           (getopt_all os args).
Proof.
  induction n as [|n IH]; intros [|a tl] Hlen; cbn [getopt_all];
    try constructor; cbn in Hlen; [lia|].
  destruct (String.eqb a "--"); [constructor|].
  destruct (option_chars a) as [cluster|]; [|apply IH; lia].
  pose proof (scan_cluster_chars os cluster (hd_error tl)) as Hc.
  destruct (scan_cluster os cluster (hd_error tl)) as [l used]. cbn in Hc.
  destruct used; [destruct tl as [|b tl']|]; apply Forall_app; split; auto;
    apply IH; cbn in *; lia.
Qed.

Lemma lookup_opt_known (x : ascii) :
  lookup_opt "s:w:F:h" x <> None ->
  x = "s"%char \/ x = "w"%char \/ x = "F"%char \/ x = "h"%char.
Proof.
  destruct x as [[] [] [] [] [] [] [] []]; cbn; intros H;
    try (exfalso; apply H; reflexivity); auto.
Qed.

(** The switch leaves with a code only on 'h' (code 0) or on a return
    that is none of 's', 'w', 'F', 'h' (code 1). *)
Lemma options_usage (rets : list opt_ret) :
  forall (c : config) (code : Z),
    options rets c = Usage code ->
    (code = 0 \/ code = 1) /\
    (code = 1 ->
     exists r, In r rets /\ fst r <> "s"%char /\ fst r <> "w"%char /\
               fst r <> "F"%char /\ fst r <> "h"%char).
Proof.
  induction rets as [|[opt optarg] rets IH]; intros c code H; cbn in H;
    [discriminate|].
  assert (Hstep : forall c', options rets c' = Usage code ->
            (code = 0 \/ code = 1) /\
            (code = 1 ->
             exists r, In r ((opt, optarg) :: rets) /\ fst r <> "s"%char /\
                       fst r <> "w"%char /\ fst r <> "F"%char /\ fst r <> "h"%char)).
  { intros c' Hc'. destruct (IH c' code Hc') as [H1 H2]. split; [exact H1|].
    intros H1'. destruct (H2 H1') as [r [Hin Hr]]. exists r. split; [right; exact Hin|exact Hr]. }
  destruct (Ascii.eqb_spec opt "s"); [eapply Hstep; eauto|].
  destruct (Ascii.eqb_spec opt "w"); [eapply Hstep; eauto|].
  destruct (Ascii.eqb_spec opt "F"); [eapply Hstep; eauto|].
  destruct (Ascii.eqb_spec opt "h"); injection H as <-.
  - split; [auto|discriminate].
  - split; [auto|]. intros _. exists (opt, optarg). cbn. auto.
Qed.

Lemma parse_usage (argv : list string) (code : Z) :
  parse argv = Usage code ->
  (code = 0 \/ code = 1) /\
  (code = 1 -> In "?"%char (map fst (getopt_all "s:w:F:h" (tl argv)))).
Proof.
  unfold parse. intros H.
  destruct (options_usage _ _ _ H) as [H01 H1]. split; [exact H01|].
  intros Hc. destruct (H1 Hc) as [r [Hin [Hs [Hw [HF Hh]]]]].
  pose proof (getopt_all_chars "s:w:F:h" _ (tl argv) (le_n _)) as Hall.
  rewrite Forall_forall in Hall. destruct (Hall r Hin) as [Hq|Hk].
  - rewrite <- Hq. apply in_map. exact Hin.
  - apply lookup_opt_known in Hk. tauto.
Qed.

Lemma parse_range (argv : list string) (c : config) :
  parse argv = Run c -> is_int (steps c) /\ is_int (work_ms c).
Proof.
  unfold parse.
  assert (Hd : is_int (steps defaults) /\ is_int (work_ms defaults))
    by (unfold is_int, INT_MIN, INT_MAX; cbn; lia).
  revert Hd. generalize defaults as c0.
  induction (getopt_all "s:w:F:h" (tl argv)) as [|[opt optarg] rets IH];
    intros c0 [Hs Hw] H; cbn in H.
  - injection H as <-. auto.
  - destruct (Ascii.eqb opt "s");
      [refine (IH _ _ H); cbn; auto with ints|].
    destruct (Ascii.eqb opt "w");
      [refine (IH _ _ H); cbn; auto with ints|].
    destruct (Ascii.eqb opt "F"); [refine (IH _ _ H); cbn; auto|].
    discriminate.
Qed.

(** ** The step loop of the thread-barrier engine *)

Lemma open_mode_iff (s : Z) : open_mode s = ModeW <-> s = 0.
Proof.
  unfold open_mode. destruct (Z.eqb_spec s 0); split; intros; congruence.
Qed.

Lemma last_line_done (c : config) (st : state) (hist : list iteration) :
  last_line (hist, Done (done c st))
  = Some (EvDone (steps c) (global_counter st)).
Proof.
  unfold last_line. cbn. rewrite map_app. cbn. apply last_last.
Qed.

Lemma is_int_init (h : host) (f : option (list entry)) :
  is_int (step (init_state h f)).
Proof. unfold is_int, INT_MIN, INT_MAX. cbn. lia. Qed.

(** Finitely many searches that each succeed with some fuel succeed
    with one common fuel. *)
Lemma finite_fuel (P : nat -> nat -> Prop) :
  (forall i f f', P i f -> (f <= f')%nat -> P i f') ->
  forall n, (forall i, (i < n)%nat -> exists f, P i f) ->
            exists F, forall i, (i < n)%nat -> P i F.
Proof.
  intros Hmono. induction n as [|n IH]; intros Hex.
  - exists O. intros i Hi. lia.
  - destruct IH as [F HF]; [intros i Hi; apply Hex; lia|].
    destruct (Hex n ltac:(lia)) as [f Hf].
    exists (Nat.max F f). intros i Hi.
    destruct (Nat.eq_dec i n) as [->|Hne].
    + apply (Hmono n f); [exact Hf|lia].
    + apply (Hmono i F); [apply HF; lia|lia].
Qed.

Lemma team_returns_iff (h : host) (c : config) (s : Z) (fuel : nat) :
  team_returns h c s fuel = true <->
  forall tid, (tid < Pos.to_nat (nthreads h s))%nat ->
              exists r, busy_work_ms (clocks h s tid) (work_ms c) fuel = Some r.
Proof.
  unfold team_returns, returns. rewrite forallb_forall. split.
  - intros H tid Ht. specialize (H tid ltac:(apply in_seq; lia)).
    destruct (busy_work_ms _ _ _) as [r|]; [eauto|discriminate].
  - intros H tid Ht. apply in_seq in Ht.
    destruct (H tid ltac:(lia)) as [r ->]. reflexivity.
Qed.

Lemma team_returns_mono (h : host) (c : config) (s : Z) (f f' : nat) :
  team_returns h c s f = true -> (f <= f')%nat -> team_returns h c s f' = true.
Proof.
  rewrite !team_returns_iff. intros H Hle tid Ht.
  destruct (H tid Ht) as [r Hr]. exists r.
  unfold busy_work_ms in *. eapply poll_mono; eauto.
Qed.

Lemma team_returns_exists (h : host) (c : config) (s : Z) :
  0 <= work_ms c <= INT_MAX ->
  (forall tid, (tid < Pos.to_nat (nthreads h s))%nat ->
               clock_reaches (clocks h s tid) (work_ms c)) ->
  exists fuel, team_returns h c s fuel = true.
Proof.
  intros Hw Hreach.
  destruct (finite_fuel
              (fun tid f => exists r,
                   busy_work_ms (clocks h s tid) (work_ms c) f = Some r))
    with (n := Pos.to_nat (nthreads h s)) as [F HF].
  - intros tid f f' [r Hr] Hle. exists r.
    unfold busy_work_ms in *. eapply poll_mono; eauto.
  - intros tid Ht.
    destruct (busy_work_ms_returns _ _ Hw (Hreach tid Ht)) as [f [r Hr]]. eauto.
  - exists F. apply team_returns_iff. exact HF.
Qed.

Lemma run_fuel_exists (h : host) (c : config) :
  0 <= work_ms c <= INT_MAX -> team_clocks_reach h c ->
  exists fuel, forall s, 0 <= s < steps c -> team_returns h c s fuel = true.
Proof.
  intros Hw Hreach.
  destruct (finite_fuel (fun i f => team_returns h c (Z.of_nat i) f = true))
    with (n := Z.to_nat (steps c)) as [F HF].
  - intros i f f'. apply team_returns_mono.
  - intros i Hi. apply team_returns_exists; [exact Hw|].
    intros tid Ht. apply Hreach; [lia|exact Ht].
  - exists F. intros s Hs.
    replace s with (Z.of_nat (Z.to_nat s)) by lia. apply HF. lia.
Qed.

Section Runs.

(** The host, the configuration and the fuel of the busy loops. *)
Variable h : host.
Variable c : config.
Variable fuel : nat.

(** The loop function follows the relation. *)
Lemma loop_runs :
  forall (n : nat) (st : state),
    runs h c fuel st (fst (loop h c fuel n st)) (snd (loop h c fuel n st)).
Proof.
  induction n as [|n IH]; intros st; cbn [loop];
    destruct (Z.ltb_spec (step st) (steps c)) as [Hlt|Hge].
  - apply runs_stop. exact Hlt.
  - apply runs_done. exact Hge.
  - destruct (parallel_region h c fuel st) as [[st' it]|] eqn:Hpar.
    + specialize (IH (advance st')).
      destruct (loop h c fuel n (advance st')) as [hist o].
      eapply runs_iter; eauto.
    + apply runs_spin; assumption.
  - apply runs_done. exact Hge.
Qed.

Lemma run_from_runs (st : state) :
  runs h c fuel st (fst (run_from h c fuel st)) (snd (run_from h c fuel st)).
Proof. apply loop_runs. Qed.

(** What one pass through the parallel region does. *)
Lemma parallel_region_spec (st st' : state) (it : iteration) :
  parallel_region h c fuel st = Some (st', it) ->
  step st' = step st /\ global_counter st' = global_counter st /\
  it_step it = step st /\ it_counter it = global_counter st /\
  it_usleep it = 2000000 /\
  (forall m ok, it_open it = Some (m, ok) -> m = open_mode (step st)) /\
  (forall e, it_entry it = Some e ->
             e_step e = step st /\ e_counter e = global_counter st /\
             file st' = fprintf e (fopen (open_mode (step st)) (file st))) /\
  (it_entry it = None -> file st' = file st).
Proof.
  unfold parallel_region, single, before_barrier.
  destruct (team_returns h c (step st) fuel); [|discriminate].
  cbn [step global_counter file stdout].
  destruct (state_file c) as [path|].
  - destruct (fopen_ok h (step st)); intros H; injection H as <- <-; cbn;
      repeat (split; [reflexivity|]);
      (split; [intros m ok Ho; congruence|]);
      (split; [intros e0 He|intros He]); try discriminate; try reflexivity.
    injection He as <-. auto.
  - intros H; injection H as <- <-; cbn;
      repeat (split; [reflexivity|]);
      (split; [intros m ok Ho; discriminate|]);
      (split; [intros e0 He; discriminate|reflexivity]).
Qed.

Lemma runs_last_state st hist o :
  runs h c fuel st hist o -> exists st', last_state o = Some st'.
Proof. induction 1; cbn; eauto. Qed.

Lemma runs_usleep st hist o :
  runs h c fuel st hist o -> Forall (fun it => it_usleep it = 2000000) hist.
Proof.
  induction 1 as [| | |st st' it hist o Hlt Hpar _ IH]; auto.
  constructor; [|exact IH].
  apply parallel_region_spec in Hpar. tauto.
Qed.

Lemma runs_open_mode st hist o :
  runs h c fuel st hist o ->
  Forall (fun it => forall m ok, it_open it = Some (m, ok) ->
                                 (m = ModeW <-> it_step it = 0)) hist.
Proof.
  induction 1 as [| | |st st' it hist o Hlt Hpar _ IH]; auto.
  constructor; [|exact IH].
  apply parallel_region_spec in Hpar.
  destruct Hpar as [_ [_ [Hs [_ [_ [Hm _]]]]]].
  intros m ok Ho. rewrite (Hm m ok Ho), Hs. apply open_mode_iff.
Qed.

(** [step] and [global_counter], once equal, stay equal. *)
Lemma runs_step_eq_counter st hist o :
  runs h c fuel st hist o -> step st = global_counter st ->
  Forall (fun it => it_step it = it_counter it) hist /\
  Forall (fun e => e_step e = e_counter e) (entries_written hist) /\
  (forall st', last_state o = Some st' -> step st' = global_counter st').
Proof.
  induction 1 as [st Hge|st Hlt Hpar|st Hlt|st st' it hist o Hlt Hpar _ IH];
    intros Heq.
  - repeat split; [constructor|constructor|].
    cbn. intros st' H. injection H as <-. exact Heq.
  - repeat split; [constructor|constructor|].
    cbn. intros st' H. injection H as <-. exact Heq.
  - repeat split; [constructor|constructor|].
    cbn. intros st' H. injection H as <-. exact Heq.
  - apply parallel_region_spec in Hpar.
    destruct Hpar as [Hs [Hg [His [Hic [_ [_ [He _]]]]]]].
    destruct IH as [IH1 [IH2 IH3]]; [cbn; congruence|].
    split; [constructor; [congruence|exact IH1]|]. split; [|exact IH3].
    cbn [entries_written flat_map]. apply Forall_app. split; [|exact IH2].
    destruct (it_entry it) as [e|]; [|constructor].
    destruct (He e eq_refl) as [He1 [He2 _]].
    constructor; [congruence|constructor].
Qed.

(** [steps] is an [int]. *)
Hypothesis Hsteps : steps c <= INT_MAX.

(** Inside the loop [++step] does not wrap. *)
Lemma advance_step (st : state) :
  is_int (step st) -> step st < steps c -> step (advance st) = step st + 1.
Proof. intros Hi Hlt. cbn. apply wrap32_id. int_lia. Qed.

Lemma advance_after_region (st st' : state) (it : iteration) :
  parallel_region h c fuel st = Some (st', it) ->
  is_int (step st) -> step st < steps c ->
  step (advance st') = step st + 1 /\ is_int (step (advance st')).
Proof.
  intros Hpar Hi Hlt. apply parallel_region_spec in Hpar.
  destruct Hpar as [Hs _].
  assert (Hadv : step (advance st') = step st + 1)
    by (rewrite advance_step; rewrite Hs; auto).
  split; [exact Hadv|]. rewrite Hadv. int_lia.
Qed.

(** The k-th iteration of a run works on step [step st + k]. *)
Lemma runs_indices st hist o :
  runs h c fuel st hist o -> is_int (step st) ->
  map it_step hist = map (fun k => step st + Z.of_nat k) (seq 0 (length hist)).
Proof.
  induction 1 as [| | |st st' it hist o Hlt Hpar Hruns IH]; intros Hi;
    try reflexivity.
  destruct (advance_after_region st st' it Hpar Hi Hlt) as [Hadv Hi'].
  apply parallel_region_spec in Hpar. destruct Hpar as [_ [_ [His _]]].
  cbn [map length seq]. rewrite His, (IH Hi'), Hadv, Z.add_0_r.
  f_equal. rewrite <- seq_shift, map_map. apply map_ext. intros k. lia.
Qed.

(** A run that reaches the DONE line went through the steps
    [step st, ..., steps - 1], one by one. *)
Lemma runs_done_steps st hist o :
  runs h c fuel st hist o -> is_int (step st) ->
  forall st', o = Done st' ->
    map it_step hist = zrange (step st) (steps c) /\
    step st' = Z.max (step st) (steps c) /\
    last_line (hist, o) = Some (EvDone (steps c) (global_counter st')).
Proof.
  induction 1 as [st Hge|st Hlt Hpar|st Hlt|st st' it hist o Hlt Hpar Hruns IH];
    intros Hi st1 Ho; try discriminate.
  - injection Ho as <-. rewrite zrange_nil by lia.
    split; [reflexivity|]. split; [cbn; lia|].
    rewrite last_line_done. reflexivity.
  - destruct (advance_after_region st st' it Hpar Hi Hlt) as [Hadv Hi'].
    apply parallel_region_spec in Hpar. destruct Hpar as [_ [_ [His _]]].
    destruct (IH Hi' st1 Ho) as [IH1 [IH2 IH3]].
    rewrite Hadv in IH1, IH2.
    split; [|split].
    + cbn [map]. rewrite His, IH1. symmetry. apply zrange_cons. exact Hlt.
    + lia.
    + subst o. exact IH3.
Qed.

(** Taken up at a step other than the first, a run only ever appends
    to the state file. *)
Lemma runs_log_retained st hist o :
  runs h c fuel st hist o -> 1 <= step st ->
  forall st', last_state o = Some st' ->
    content (file st') = content (file st) ++ entries_written hist.
Proof.
  induction 1 as [st Hge|st Hlt Hpar|st Hlt|st st' it hist o Hlt Hpar Hruns IH];
    intros Hs1 st1 Ho.
  - cbn in Ho. injection Ho as <-. cbn. rewrite app_nil_r. reflexivity.
  - cbn in Ho. injection Ho as <-. cbn. rewrite app_nil_r. reflexivity.
  - cbn in Ho. injection Ho as <-. cbn. rewrite app_nil_r. reflexivity.
  - destruct (advance_after_region st st' it Hpar ltac:(int_lia) Hlt)
      as [Hadv _].
    apply parallel_region_spec in Hpar.
    destruct Hpar as [_ [_ [_ [_ [_ [_ [Hw Hnw]]]]]]].
    rewrite (IH ltac:(lia) st1 Ho).
    cbn [entries_written flat_map advance file]. rewrite app_assoc. f_equal.
    destruct (it_entry it) as [e|].
    + destruct (Hw e eq_refl) as [_ [_ Hf]]. rewrite Hf.
      replace (open_mode (step st)) with ModeA; [reflexivity|].
      unfold open_mode. destruct (Z.eqb_spec (step st) 0); [lia|reflexivity].
    + rewrite (Hnw eq_refl), app_nil_r. reflexivity.
Qed.

(** With the busy loops returning, the step loop reaches its end. *)
Lemma loop_completes :
  forall (n : nat) (st : state),
    is_int (step st) ->
    (Z.to_nat (steps c - step st) <= n)%nat ->
    (forall s, step st <= s < steps c -> team_returns h c s fuel = true) ->
    exists hist st', loop h c fuel n st = (hist, Done st').
Proof.
  induction n as [|n IH]; intros st Hi Hn Hret; cbn [loop];
    destruct (Z.ltb_spec (step st) (steps c)) as [Hlt|Hge]; eauto; [lia|].
  destruct (parallel_region h c fuel st) as [[st1 it]|] eqn:Hpar.
  - destruct (advance_after_region st st1 it Hpar Hi Hlt) as [Hadv Hi'].
    destruct (IH (advance st1) Hi') as [hist [st' Hrun]].
    + rewrite Hadv. lia.
    + intros s Hs. apply Hret. rewrite Hadv in Hs. lia.
    + rewrite Hrun. eauto.
  - unfold parallel_region in Hpar. rewrite (Hret (step st)) in Hpar by lia.
    discriminate.
Qed.

(** The bound on the iterations is never what stops the loop. *)
Lemma loop_bound_enough :
  forall (n : nat) (st : state),
    is_int (step st) ->
    (Z.to_nat (steps c - step st) <= n)%nat ->
    forall st', snd (loop h c fuel n st) <> OutOfFuel st'.
Proof.
  induction n as [|n IH]; intros st Hi Hn st'; cbn [loop];
    destruct (Z.ltb_spec (step st) (steps c)) as [Hlt|Hge];
    try discriminate; [lia|].
  destruct (parallel_region h c fuel st) as [[st1 it]|] eqn:Hpar;
    [|discriminate].
  destruct (advance_after_region st st1 it Hpar Hi Hlt) as [Hadv Hi'].
  specialize (IH (advance st1) Hi' ltac:(rewrite Hadv; lia) st').
  destruct (loop h c fuel n (advance st1)) as [hist o]. exact IH.
Qed.

End Runs.

End OmpFacts.

(** ** Facts about the option switch *)

Section SwitchFacts.
Import OmpDemo OmpInv OmpObs.

Lemma carries_on_cases (o : ascii) (a : string) :
  carries_on (o, a) = true ->
  o = "s"%char \/ o = "w"%char \/ o = "F"%char.
Proof.
  unfold carries_on. cbn [fst]. intros H.
  apply orb_true_iff in H. destruct H as [H|H];
    [apply orb_true_iff in H; destruct H as [H|H]|];
    apply Ascii.eqb_eq in H; auto.
Qed.

(** The first return that is none of 's', 'w', 'F' decides how the
    switch leaves; without one the loop runs to the end. *)
Lemma options_find (rets : list opt_ret) :
  forall c : config,
    match find (fun r => negb (carries_on r)) rets with
    | Some (o, _) => options rets c = Usage (if Ascii.eqb o "h" then 0 else 1)
    | None => exists c', options rets c = Run c'
    end.
Proof.
  induction rets as [|[o a] rets IH]; intros c; cbn [find]; [eexists; reflexivity|].
  destruct (carries_on (o, a)) eqn:Ho; cbn [negb].
  - destruct (carries_on_cases o a Ho) as [ -> | [ -> | -> ] ];
      cbn [options Ascii.eqb Bool.eqb]; apply IH.
  - unfold carries_on in Ho. cbn [fst] in Ho.
    apply orb_false_iff in Ho. destruct Ho as [Ho HF].
    apply orb_false_iff in Ho. destruct Ho as [Hs Hw].
    cbn [options]. rewrite Hs, Hw, HF. reflexivity.
Qed.

Lemma find_first_other (pre post : list opt_ret) (r : opt_ret) :
  forallb carries_on pre = true -> carries_on r = false ->
  find (fun r => negb (carries_on r)) (pre ++ r :: post) = Some r.
Proof.
  intros Hpre Hr. induction pre as [|r' pre IH]; cbn [app find].
  - rewrite Hr. reflexivity.
  - cbn [forallb] in Hpre. apply andb_true_iff in Hpre.
    destruct Hpre as [Hr' Hpre]. rewrite Hr'. cbn [negb]. apply IH. exact Hpre.
Qed.

(** [getopt] on options that each have their argument as the next
    element. *)
Lemma getopt_all_flags (l : list opt_ret) (rest : list string) :
  forallb carries_on l = true ->
  getopt_all "s:w:F:h" (flags l ++ rest) = l ++ getopt_all "s:w:F:h" rest.
Proof.
  induction l as [|[o a] l IH]; intros Hall; [reflexivity|].
  cbn [forallb] in Hall. apply andb_true_iff in Hall. destruct Hall as [Ho Hl].
  unfold flags. cbn [flat_map fst snd app]. fold (flags l).
  destruct (carries_on_cases o a Ho) as [ -> | [ -> | -> ] ];
    cbn; rewrite (IH Hl); reflexivity.
Qed.

(** After such options, what the next element makes of the run. *)
Lemma parse_after_flags (prog : string) (l : list opt_ret) (rest : list string)
      (r : opt_ret) (post : list opt_ret) :
  forallb carries_on l = true -> carries_on r = false ->
  getopt_all "s:w:F:h" rest = r :: post ->
  parse (prog :: flags l ++ rest)
  = Usage (if Ascii.eqb (fst r) "h" then 0 else 1).
Proof.
  intros Hl Hr Hrest. unfold parse. cbn [tl].
  rewrite (getopt_all_flags l rest Hl), Hrest.
  pose proof (options_find (l ++ r :: post) defaults) as H.
  rewrite (find_first_other l post r Hl Hr) in H. destruct r as [o a]. exact H.
Qed.

(** An element that starts with an option character [getopt] does not
    know gives '?' first. *)
Lemma getopt_all_unknown (x : ascii) (more : string) (rest : list string) :
  lookup_opt "s:w:F:h" x = None -> x <> "-"%char ->
  exists post,
    getopt_all "s:w:F:h" (String "-" (String x more) :: rest)
    = ("?"%char, EmptyString) :: post.
Proof.
  intros Hx Hd. cbn [getopt_all].
  replace (String.eqb (String "-" (String x more)) "--") with false.
  - cbn [option_chars Ascii.eqb Bool.eqb scan_cluster]. cbn [Ascii.eqb Bool.eqb].
    rewrite Hx.
    destruct (scan_cluster "s:w:F:h" more (hd_error rest)) as [l used].
    destruct used; [destruct rest|]; cbn [app]; eexists; reflexivity.
  - symmetry. cbn. apply Ascii.eqb_neq in Hd. rewrite Hd. reflexivity.
Qed.

End SwitchFacts.

(** ** The model on concrete inputs *)

Section Examples.
Import OmpDemo OmpInv.
Local Open Scope string_scope.

Example atoi_examples :
  atoi "42" = 42 /\ atoi "  -12x" = -12 /\ atoi "+7" = 7 /\
  atoi "abc" = 0 /\ atoi EmptyString = 0 /\ atoi "4294967297" = 1.
Proof. repeat split. Qed.

Example getopt_examples :
  parse ["demo"; "-s"; "120"; "-w50"; "-F"; "state.txt"]
  = Run {| steps := 120; work_ms := 50; state_file := Some "state.txt" |} /\
  parse ["demo"; "extra"; "-s"; "3"]
  = Run {| steps := 3; work_ms := 25; state_file := None |} /\
  parse ["demo"; "--"; "-s"; "3"] = Run defaults /\
  parse ["demo"; "-hs"] = Usage 0 /\
  parse ["demo"; "-w"] = Usage 1 /\
  parse ["demo"; "-s"; "3"; "-q"] = Usage 1.
Proof. repeat split. Qed.

(** Two threads, two steps, a state file: two lines, STEP=0 and STEP=1
    with global_counter 0 and 1. *)
Example two_threads_two_steps :
  OmpDemo.main demo_host ["demo"; "-s"; "2"; "-F"; "state.txt"] None 1
  = ([{| it_step := 0; it_counter := 0; it_open := Some (ModeW, true);
         it_entry := Some (mkEntry 1700000000 0 0 2); it_usleep := 2000000 |};
      {| it_step := 1; it_counter := 1; it_open := Some (ModeA, true);
         it_entry := Some (mkEntry 1700000002 1 1 2); it_usleep := 2000000 |}],
     Done {| step := 2; global_counter := 2;
             file := Some [mkEntry 1700000000 0 0 2; mkEntry 1700000002 1 1 2];
             stdout := [EvBanner 2;
                        EvThread 0 0 2; EvThread 0 1 2;
                        EvThread 1 0 2; EvThread 1 1 2;
                        EvDone 2 2] |}).
Proof. reflexivity. Qed.

(** Ten ranks: the summary line shows eight values and counts the rest. *)
Example ten_ranks_summary :
  HelloMpi.root_out
    (HelloMpi.main [("MAX_STEPS", "1"); ("SLEEP_MS", "0")] 10)
  = [HelloMpi.EvStart 10;
     HelloMpi.EvStep 0 [0; 1; 2; 3; 4; 5; 6; 7] (Some 2);
     HelloMpi.EvFinish 1].
Proof. reflexivity. Qed.

(** Ranks that disagree on the loop test leave the others waiting in
    the broadcast. *)
Example ranks_out_of_step_hang :
  HelloMpi.world_step
    [HelloMpi.proc_at [("MAX_STEPS", "2")] 2 0 0;
     HelloMpi.proc_at [("MAX_STEPS", "2")] 2 2 1]
  = HelloMpi.Hang.
Proof. reflexivity. Qed.

(** A negative -w never lets a thread out of its busy loop. *)
Example negative_work_spins :
  snd (OmpDemo.main demo_host ["demo"; "-s"; "1"; "-w"; "-1"] None 1000)
  = Spinning (init_state demo_host None).
Proof. vm_compute. reflexivity. Qed.

End Examples.

(** ** The coordinator-worker engine: gathered values, resumption, the counter *)

Section MpiClaims.
Import HelloMpi MpiInv.

(** C1, as the code has it.  For every number of ranks [n >= 1] and
    every step [s] that a fresh run executes, provided the largest
    product [(n-1) * (s+1)] fits an [int], the sequence gathered at the
    root in step [s] is exactly [rank * (s+1)] for rank in [0..n), in
    rank order.  With 4 ranks and MAX_STEPS=3 the root prints
    [0,1,2,3], [0,2,4,6], [0,3,6,9] for steps 0, 1, 2 and then the
    finish line with steps=3. *)
Theorem gathered_sequence_exact (e : environ) (n : nat) (s : Z)
  (Hn : (1 <= n)%nat) (Hs : 0 <= s < config_max_steps e)
  (Hfit : (Z.of_nat n - 1) * (s + 1) <= INT_MAX) :
  gathered_at (main e n) (Z.to_nat s) = Some (expected_gather n s) /\
  root_out (main [("MAX_STEPS", "3")%string] 4)
  = [EvStart 4;
     EvStep 0 [0; 1; 2; 3] None; EvUsleep 1000000;
     EvStep 1 [0; 2; 4; 6] None; EvUsleep 1000000;
     EvStep 2 [0; 3; 6; 9] None; EvUsleep 1000000;
     EvFinish 3].
Proof.
  split; [|vm_compute; reflexivity].
  rewrite (gathered_at_int e n Hn s Hs). f_equal.
  pose proof (config_max_steps_range e).
  apply int_gather_exact; [lia|exact Hfit].
Qed.

Lemma gathered_sequence_exact_witness :
  ((1 <= 4)%nat /\ 0 <= 2 < config_max_steps [("MAX_STEPS", "3")%string] /\
   (Z.of_nat 4 - 1) * (2 + 1) <= INT_MAX) /\
  gathered_at (main [("MAX_STEPS", "3")%string] 4) (Z.to_nat 2) = Some [0; 3; 6; 9].
Proof.
  assert (H1 : (1 <= 4)%nat) by lia.
  assert (H2 : 0 <= 2 < config_max_steps [("MAX_STEPS", "3")%string])
    by (vm_compute; split; [discriminate|reflexivity]).
  assert (H3 : (Z.of_nat 4 - 1) * (2 + 1) <= INT_MAX)
    by (vm_compute; discriminate).
  split; [auto|].
  exact (proj1 (gathered_sequence_exact [("MAX_STEPS", "3")%string] 4 2 H1 H2 H3)).
Defined.

(** C1 as stated fails where the product leaves [int]: three ranks,
    MAX_STEPS=1073741825, step 1073741824.  Rank 2 computes
    [2 * 1073741825], which an [int] cannot hold. *)
Lemma gathered_sequence_overflow :
  gathered_at (main [("MAX_STEPS", "1073741825")%string; ("SLEEP_MS", "0")%string] 3)
              (Z.to_nat 1073741824)
  = Some [0; 1073741825; -2147483646] /\
  gathered_at (main [("MAX_STEPS", "1073741825")%string; ("SLEEP_MS", "0")%string] 3)
              (Z.to_nat 1073741824)
  <> Some (expected_gather 3 1073741824).
Proof.
  rewrite gathered_at_int;
    [|lia|split; [lia|vm_compute; reflexivity]].
  split; [vm_compute; reflexivity|vm_compute; discriminate].
Qed.

(** C3.  A run taken up in a state where every rank has counter [c]
    ends normally, and what the root prints from there on has exactly
    the step lines [c, c+1, ..., max_steps - 1], in order: step [c - 1]
    is not printed again, the first step printed is [c], and in the
    k-th iteration every rank works on step [c + k]. *)
Theorem resume_continues_at_counter (e : environ) (n : nat) (c : Z) (w : world)
  (Hn : (1 <= n)%nat) (Hl : lockstep e n c w) (Hc : 0 <= c) :
  (exists wf, snd (run w) = Done wf) /\
  (exists new,
      root_out (run w) = root_events w ++ new /\
      steps_printed new = zrange c (config_max_steps e) /\
      ~ In (c - 1) (steps_printed new) /\
      (c < config_max_steps e -> hd_error (steps_printed new) = Some c)) /\
  (forall k wk, nth_error (fst (run w)) k = Some wk ->
                Forall (fun p => step p = c + Z.of_nat k) wk).
Proof.
  destruct (run_lockstep e n Hn c w Hl Hc)
    as [hist [wf [Hrun [Hlf [Ht [Hlen [new [Hnew Hp]]]]]]]].
  rewrite Hrun. cbn [fst snd]. split; [eauto|]. split.
  - exists (new ++ [EvFinish (Z.max c (config_max_steps e))]).
    assert (Hs : steps_printed (new ++ [EvFinish (Z.max c (config_max_steps e))])
                 = zrange c (config_max_steps e)).
    { rewrite steps_printed_app, Hp. cbn. apply app_nil_r. }
    rewrite Hs. split; [|split; [reflexivity|split]].
    + unfold root_out, final_world. cbn [snd].
      rewrite (root_events_finish e n Hn _ wf Hlf), Hnew, app_assoc. reflexivity.
    + rewrite zrange_In. lia.
    + intros Hlt. rewrite (zrange_cons c _ Hlt). reflexivity.
  - intros k wk Hk. apply (trace_ok_nth e n hist c k wk Ht Hk).
Qed.

Lemma resume_continues_at_counter_witness :
  ((1 <= 2)%nat /\
   lockstep [("MAX_STEPS", "6")%string] 2 3 (world_at [("MAX_STEPS", "6")%string] 2 3) /\
   0 <= 3) /\
  exists new,
    root_out (mpi_resume [("MAX_STEPS", "6")%string] 2 3) = new /\
    steps_printed new = [3; 4; 5].
Proof.
  assert (H1 : (1 <= 2)%nat) by lia.
  assert (H2 : lockstep [("MAX_STEPS", "6")%string] 2 3
                 (world_at [("MAX_STEPS", "6")%string] 2 3)).
  { split; [reflexivity|]. repeat constructor. }
  assert (H3 : 0 <= 3) by lia.
  split; [auto|].
  destruct (resume_continues_at_counter [("MAX_STEPS", "6")%string] 2 3
              (world_at [("MAX_STEPS", "6")%string] 2 3) H1 H2 H3)
    as [_ [[new [Hout [Hs _]]] _]].
  exists new. split; [exact Hout|exact Hs].
Defined.

(** C5, as the code has it.  In one iteration every rank, the
    coordinator and each other worker alike, increments its own copy of
    [counter] by exactly 1; the copies stay equal, and the step every
    rank works on is the coordinator's counter, received by broadcast. *)
Theorem every_rank_increments_its_counter (e : environ) (n : nat) (c : Z) (w : world)
  (Hn : (1 <= n)%nat) (Hl : lockstep e n c w) (Hc : 0 <= c < config_max_steps e) :
  exists w',
    world_step w = Advanced w' /\
    map rank w' = map rank w /\
    map counter w' = map (fun p => counter p + 1) w /\
    Forall (fun p => counter p = c + 1) w' /\
    Forall (fun p => step p = c) w'.
Proof.
  destruct (world_step_lockstep e n Hn c w Hl Hc)
    as [w' [Hstep [[Hr Hf] [_ [Hs [Hcnt _]]]]]].
  exists w'. split; [exact Hstep|]. split; [|split; [exact Hcnt|split; [|exact Hs]]].
  - rewrite Hr. symmetry. apply Hl.
  - eapply Forall_impl; [|exact Hf]. intros p Hp. apply Hp.
Qed.

Lemma every_rank_increments_its_counter_witness :
  ((1 <= 2)%nat /\ lockstep [] 2 0 (init_world [] 2) /\ 0 <= 0 < config_max_steps []) /\
  exists w', world_step (init_world [] 2) = Advanced w' /\ map counter w' = [1; 1].
Proof.
  assert (H1 : (1 <= 2)%nat) by lia.
  assert (H2 : lockstep [] 2 0 (init_world [] 2)).
  { split; [reflexivity|]. repeat constructor. }
  assert (H3 : 0 <= 0 < config_max_steps []) by (cbn; lia).
  split; [auto|].
  destruct (every_rank_increments_its_counter [] 2 0 (init_world [] 2) H1 H2 H3)
    as [w' [Hs [_ [Hc _]]]].
  exists w'. split; [exact Hs|exact Hc].
Defined.

(** C5 as stated fails on a worker: with two ranks, one iteration takes
    rank 1's counter from 0 to 1. *)
Lemma worker_counter_changes :
  exists w',
    world_step (init_world [] 2) = Advanced w' /\
    map rank w' = [0; 1] /\
    map counter (init_world [] 2) = [0; 0] /\
    map counter w' = [1; 1].
Proof. eexists. vm_compute. repeat split. Qed.

End MpiClaims.

(** ** The thread-barrier engine: busy work, the state file, the counters *)

Section OmpClaims.
Import OmpDemo OmpInv.

(** C10.  On a sane monotonic clock that at some turn shows [ms]
    milliseconds gone by, [busy_work_ms(ms)] returns exactly when
    [ms >= 0]: for [ms >= 0] the target is [ms * 1000] microseconds and
    the loop breaks; for [ms < 0] the conversion to [uint64_t] makes the
    target [2^64 + ms * 1000], which the elapsed time never reaches. *)
Theorem busy_work_ms_terminates_iff_nonneg (clk : clock) (ms : Z)
  (Hint : is_int ms) (Hsane : clock_sane clk)
  (Hreach : clock_reaches clk (Z.max 0 ms)) :
  (terminates clk ms <-> 0 <= ms) /\
  (0 <= ms -> target ms = ms * 1000) /\
  (ms < 0 -> target ms = 2 ^ 64 + ms * 1000).
Proof.
  unfold is_int in Hint. split; [split|split].
  - intros Hterm. destruct (Z.lt_ge_cases ms 0) as [Hneg|Hpos]; [|exact Hpos].
    exfalso. apply (busy_work_ms_spins clk ms); auto. lia.
  - intros Hpos. rewrite Z.max_r in Hreach by lia.
    apply busy_work_ms_returns; [lia|exact Hreach].
  - intros Hpos. apply target_nonneg. lia.
  - intros Hneg. apply target_neg. lia.
Qed.

Lemma busy_work_ms_terminates_iff_nonneg_witness :
  (is_int 25 /\ clock_sane second_clock /\ clock_reaches second_clock (Z.max 0 25)) /\
  terminates second_clock 25.
Proof.
  assert (H1 : is_int 25) by (int_lia).
  assert (H2 : clock_sane second_clock).
  { intros k. unfold reading_ok, second_clock. cbn [tv_sec tv_nsec]. lia. }
  assert (H3 : clock_reaches second_clock (Z.max 0 25)).
  { exists 1%nat. split; [lia|]. split; [apply H2|]. vm_compute. discriminate. }
  split; [auto|].
  apply (proj1 (busy_work_ms_terminates_iff_nonneg second_clock 25 H1 H2 H3)).
  lia.
Defined.

(** C4.  In every run of the thread-barrier engine, fresh or revived,
    a [fopen] of the state file uses mode "w" if and only if the step
    index is 0; a run taken up at a step [>= 1] only appends, so the
    file it leaves is the file it found followed by the entries it
    wrote. *)
Theorem state_file_truncated_only_at_step_0
  (h : host) (c : config) (fuel : nat) (st0 st : state)
  (Hc : steps c <= INT_MAX) (Hs : 1 <= step st) :
  Forall (fun it => forall m ok, it_open it = Some (m, ok) ->
                                 (m = ModeW <-> it_step it = 0))
         (fst (run_from h c fuel st0)) /\
  log_of (run_from h c fuel st)
  = content (file st) ++ entries_written (fst (run_from h c fuel st)).
Proof.
  split.
  - apply (runs_open_mode h c fuel st0 _ _ (run_from_runs h c fuel st0)).
  - pose proof (run_from_runs h c fuel st) as Hruns.
    unfold log_of.
    destruct (last_state (snd (run_from h c fuel st))) as [st'|] eqn:Hl.
    + apply (runs_log_retained h c fuel Hc st _ _ Hruns Hs st' Hl).
    + destruct (runs_last_state h c fuel st _ _ Hruns) as [st' Hst']. congruence.
Qed.

Lemma state_file_truncated_only_at_step_0_witness :
  (steps (mkConfig 4 25 (Some "state.txt"%string)) <= INT_MAX /\
   1 <= step (mkState 2 2 (Some [mkEntry 1700000000 0 0 2; mkEntry 1700000002 1 1 2]) [])) /\
  log_of (run_from demo_host (mkConfig 4 25 (Some "state.txt"%string)) 1
            (mkState 2 2 (Some [mkEntry 1700000000 0 0 2; mkEntry 1700000002 1 1 2]) []))
  = [mkEntry 1700000000 0 0 2; mkEntry 1700000002 1 1 2;
     mkEntry 1700000004 2 2 2; mkEntry 1700000006 3 3 2].
Proof.
  assert (H1 : steps (mkConfig 4 25 (Some "state.txt"%string)) <= INT_MAX)
    by (vm_compute; discriminate).
  assert (H2 : 1 <= step (mkState 2 2 (Some [mkEntry 1700000000 0 0 2;
                                             mkEntry 1700000002 1 1 2]) []))
    by (cbn; lia).
  split; [auto|].
  exact (proj2 (state_file_truncated_only_at_step_0 demo_host
                  (mkConfig 4 25 (Some "state.txt"%string)) 1
                  (init_state demo_host None)
                  (mkState 2 2 (Some [mkEntry 1700000000 0 0 2;
                                      mkEntry 1700000002 1 1 2]) [])
                  H1 H2)).
Defined.

(** C9.  In a run started from [main], [step] and [global_counter] are
    equal in every iteration, the k-th iteration has both equal to [k],
    and every entry written to the state file carries equal STEP and
    global_counter fields. *)
Theorem step_equals_global_counter
  (h : host) (argv : list string) (f : option (list entry)) (fuel : nat) :
  Forall (fun it => it_step it = it_counter it) (fst (main h argv f fuel)) /\
  map it_step (fst (main h argv f fuel))
  = map Z.of_nat (seq 0 (length (fst (main h argv f fuel)))) /\
  Forall (fun e => e_step e = e_counter e)
         (entries_written (fst (main h argv f fuel))).
Proof.
  unfold main. destruct (parse argv) as [c|code] eqn:Hp.
  - pose proof (run_from_runs h c fuel (init_state h f)) as Hruns.
    destruct (parse_range argv c Hp) as [[_ Hc] _].
    destruct (runs_step_eq_counter h c fuel _ _ _ Hruns eq_refl) as [H1 [H2 _]].
    split; [exact H1|]. split; [|exact H2].
    rewrite (runs_indices h c fuel Hc _ _ _ Hruns (is_int_init h f)).
    apply map_ext. intros k. reflexivity.
  - cbn. repeat split; constructor.
Qed.

End OmpClaims.

(** ** Configuration and boundaries of the two engines *)

Section ConfigClaims.
Import OmpDemo OmpInv OmpObs.

(** C8.  Engine 4.1 takes max_steps 120 and a pacing delay of 1000 ms
    when the variables are unset, and [max(1, v)], [max(0, v)] of the
    parsed value when they are set; engine 4.2 takes 60 steps and 25 ms
    of work when no option is given, and sleeps 2000 ms in every
    iteration whatever the configuration. *)
Theorem default_configuration
  (e : environ) (prog : string) (h : host) (c : config) (fuel : nat) (st : state) :
  HelloMpi.config_max_steps e
  = match getenv e "MAX_STEPS" with Some v => Z.max 1 (atoi v) | None => 120 end /\
  HelloMpi.config_sleep_ms e
  = match getenv e "SLEEP_MS" with Some v => Z.max 0 (atoi v) | None => 1000 end /\
  HelloMpi.config_max_steps [] = 120 /\
  HelloMpi.config_sleep_ms [] = 1000 /\
  HelloMpi.root_out (HelloMpi.mpi_resume [] 1 119)
  = [HelloMpi.EvStep 119 [0] None; HelloMpi.EvUsleep (1000 * 1000);
     HelloMpi.EvFinish 120] /\
  parse [prog] = Run {| steps := 60; work_ms := 25; state_file := None |} /\
  Forall (fun it => it_usleep it = 2000 * 1000) (fst (run_from h c fuel st)).
Proof.
  split; [apply config_max_steps_eq|]. split; [apply config_sleep_ms_eq|].
  repeat (split; [reflexivity|]).
  apply (runs_usleep h c fuel st _ _ (run_from_runs h c fuel st)).
Qed.

(** C7.  With max_steps given as 0, engine 4.1 raises it to 1 and runs
    exactly one step, step 0; engine 4.2 keeps 0 and runs no step. *)
Theorem zero_max_steps_boundary
  (e : environ) (v : string) (n : nat)
  (prog a : string) (h : host) (f : option (list entry)) (fuel : nat)
  (Hn : (1 <= n)%nat)
  (Hv : getenv e "MAX_STEPS" = Some v) (H0 : atoi v = 0) (Ha : atoi a = 0) :
  (HelloMpi.config_max_steps e = 1 /\
   length (fst (HelloMpi.main e n)) = 1%nat /\
   HelloMpi.steps_printed (HelloMpi.root_out (HelloMpi.main e n)) = [0] /\
   exists w, snd (HelloMpi.main e n) = HelloMpi.Done w) /\
  (parse [prog; "-s"%string; a]
   = Run {| steps := 0; work_ms := 25; state_file := None |} /\
   fst (main h [prog; "-s"%string; a] f fuel) = [] /\
   exists st, snd (main h [prog; "-s"%string; a] f fuel) = Done st /\
              global_counter st = 0).
Proof.
  assert (Hm : HelloMpi.config_max_steps e = 1).
  { rewrite config_max_steps_eq, Hv, H0. reflexivity. }
  split.
  - split; [exact Hm|]. unfold HelloMpi.main.
    destruct (run_lockstep e n Hn 0 (HelloMpi.init_world e n)
                (lockstep_init e n) ltac:(lia))
      as [hist [wf [Hrun [Hlf [_ [Hlen [new [Hnew Hp]]]]]]]].
    rewrite Hm in *. unfold HelloMpi.root_out, HelloMpi.final_world.
    rewrite Hrun. cbn [fst snd].
    split; [exact Hlen|]. split; [|eauto].
    rewrite (root_events_finish e n Hn _ wf Hlf), Hnew, !steps_printed_app, Hp.
    rewrite (root_events_init e n Hn). reflexivity.
  - assert (Hp : parse [prog; "-s"%string; a]
                 = Run {| steps := 0; work_ms := 25; state_file := None |}).
    { unfold parse. cbn. rewrite Ha. reflexivity. }
    split; [exact Hp|]. unfold main. rewrite Hp. cbn.
    split; [reflexivity|]. eexists. split; reflexivity.
Qed.

Lemma zero_max_steps_boundary_witness :
  ((1 <= 4)%nat /\ getenv [("MAX_STEPS", "0")%string] "MAX_STEPS" = Some "0"%string /\
   atoi "0" = 0) /\
  length (fst (HelloMpi.main [("MAX_STEPS", "0")%string] 4)) = 1%nat /\
  fst (main demo_host ["omp_dmtcp_demo"; "-s"; "0"]%string None 1) = [].
Proof.
  assert (H1 : (1 <= 4)%nat) by lia.
  assert (H2 : getenv [("MAX_STEPS", "0")%string] "MAX_STEPS" = Some "0"%string)
    by reflexivity.
  assert (H3 : atoi "0" = 0) by reflexivity.
  split; [auto|].
  pose proof (zero_max_steps_boundary [("MAX_STEPS", "0")%string] "0" 4
                "omp_dmtcp_demo" "0" demo_host None 1 H1 H2 H3 H3) as [Hm Ho].
  split; [apply Hm|apply Ho].
Defined.

(** C2, as the code has it.  In both engines the counter grows by
    exactly 1 per completed step.  Engine 4.1 ends normally with the
    counter equal to max_steps on every rank and reports it in the
    finish line.  Engine 4.2, when its busy loops return, reaches the
    DONE line; whenever it does, its iterations had global_counter
    0, 1, ..., and the final global_counter, reported in the DONE line,
    is max_steps when max_steps >= 0 and 0 when max_steps is negative. *)
Theorem step_counter_reaches_max_steps
  (e : environ) (n : nat)
  (h : host) (argv : list string) (f : option (list entry)) (c : config)
  (Hn : (1 <= n)%nat)
  (Hp : parse argv = Run c) (Hw : 0 <= work_ms c) (Hclk : team_clocks_reach h c) :
  (exists hist w,
      HelloMpi.main e n = (hist, HelloMpi.Done w) /\
      length hist = Z.to_nat (HelloMpi.config_max_steps e) /\
      (forall k wk, nth_error hist k = Some wk ->
                    Forall (fun p => HelloMpi.counter p = Z.of_nat k + 1) wk) /\
      Forall (fun p => HelloMpi.counter p = HelloMpi.config_max_steps e) w /\
      last (HelloMpi.root_events w) (HelloMpi.EvStart 0)
      = HelloMpi.EvFinish (HelloMpi.config_max_steps e)) /\
  (exists fuel st, snd (main h argv f fuel) = Done st) /\
  (forall fuel st,
      snd (main h argv f fuel) = Done st ->
      map it_counter (fst (main h argv f fuel)) = zrange 0 (steps c) /\
      global_counter st = Z.max 0 (steps c) /\
      last_line (main h argv f fuel)
      = Some (EvDone (steps c) (Z.max 0 (steps c)))).
Proof.
  destruct (parse_range argv c Hp) as [[_ Hc] [_ Hwm]].
  split; [|split].
  - unfold HelloMpi.main.
    destruct (run_lockstep e n Hn 0 (HelloMpi.init_world e n)
                (lockstep_init e n) ltac:(lia))
      as [hist [wf [Hrun [Hlf [Ht [Hlen _]]]]]].
    pose proof (config_max_steps_range e) as Hm.
    rewrite Z.max_r in Hlf by lia. rewrite Z.sub_0_r in Hlen.
    exists hist, (map HelloMpi.finish wf).
    split; [exact Hrun|]. split; [exact Hlen|]. split; [|split].
    + intros k wk Hk.
      destruct (trace_ok_nth e n hist 0 k wk Ht Hk) as [[_ Hf] _].
      eapply Forall_impl; [|exact Hf]. intros p Hq. cbn in Hq. lia.
    + destruct (lockstep_finish e n _ wf Hlf) as [_ Hf].
      eapply Forall_impl; [|exact Hf]. intros p Hq. apply Hq.
    + rewrite (root_events_finish e n Hn _ wf Hlf). apply last_last.
  - destruct (run_fuel_exists h c (conj Hw Hwm) Hclk) as [fuel Hfuel].
    destruct (loop_completes h c fuel Hc
                (Z.to_nat (steps c - step (init_state h f))) (init_state h f)
                (is_int_init h f) (le_n _))
      as [hist [st Hrun]].
    { intros s Hs. apply Hfuel. cbn in Hs. lia. }
    exists fuel, st. unfold main. rewrite Hp. unfold run_from.
    rewrite Hrun. reflexivity.
  - intros fuel st. unfold main. rewrite Hp. intros Hdone.
    pose proof (run_from_runs h c fuel (init_state h f)) as Hruns.
    destruct (runs_done_steps h c fuel Hc _ _ _ Hruns (is_int_init h f) st Hdone)
      as [Hsteps [Hfin Hline]].
    change (step (init_state h f)) with 0 in Hsteps, Hfin.
    destruct (runs_step_eq_counter h c fuel _ _ _ Hruns eq_refl) as [Heq [_ Hlast]].
    assert (Hg : global_counter st = Z.max 0 (steps c)).
    { rewrite <- (Hlast st) by (rewrite Hdone; reflexivity). exact Hfin. }
    split; [|split].
    + rewrite <- Hsteps. symmetry. apply map_ext_Forall. exact Heq.
    + exact Hg.
    + rewrite <- Hg. destruct (run_from h c fuel (init_state h f)) as [hist o].
      exact Hline.
Qed.

Lemma step_counter_reaches_max_steps_witness :
  ((1 <= 2)%nat /\
   parse ["omp_dmtcp_demo"; "-s"; "2"]%string = Run (mkConfig 2 25 None) /\
   0 <= work_ms (mkConfig 2 25 None) /\
   team_clocks_reach demo_host (mkConfig 2 25 None)) /\
  (exists hist w,
      HelloMpi.main [("MAX_STEPS", "3")%string] 2 = (hist, HelloMpi.Done w) /\
      Forall (fun p => HelloMpi.counter p = 3) w) /\
  (exists fuel st,
      snd (main demo_host ["omp_dmtcp_demo"; "-s"; "2"]%string None fuel) = Done st).
Proof.
  assert (H1 : (1 <= 2)%nat) by lia.
  assert (H2 : parse ["omp_dmtcp_demo"; "-s"; "2"]%string = Run (mkConfig 2 25 None))
    by reflexivity.
  assert (H3 : 0 <= work_ms (mkConfig 2 25 None)) by (cbn; lia).
  assert (H4 : team_clocks_reach demo_host (mkConfig 2 25 None)).
  { intros s tid _ _. exists 1%nat. split; [lia|]. split.
    - unfold reading_ok. cbn. lia.
    - vm_compute. discriminate. }
  split; [auto|].
  destruct (step_counter_reaches_max_steps [("MAX_STEPS", "3")%string] 2
              demo_host ["omp_dmtcp_demo"; "-s"; "2"]%string None
              (mkConfig 2 25 None) H1 H2 H3 H4)
    as [[hist [w [Hrun [_ [_ [Hfin _]]]]]] [Hex _]].
  split; [exists hist, w; split; [exact Hrun|exact Hfin]|exact Hex].
Defined.

(** C2 as stated fails in engine 4.2 for a negative step count: with
    [-s -5] the run ends normally with global_counter 0, which is not
    max_steps and exceeds it; the DONE line shows both. *)
Lemma negative_steps_counter_exceeds :
  exists c st,
    parse ["omp_dmtcp_demo"; "-s"; "-5"]%string = Run c /\
    main demo_host ["omp_dmtcp_demo"; "-s"; "-5"]%string None 0
    = ([], Done st) /\
    stdout st = [EvBanner 2; EvDone (-5) 0] /\
    global_counter st <> steps c /\
    steps c < global_counter st.
Proof.
  exists {| steps := -5; work_ms := 25; state_file := None |}.
  eexists. vm_compute. repeat split; discriminate.
Qed.

(** C6, as the code has it.  Engine 4.1 clamps: MAX_STEPS becomes
    [max(1, v)] and SLEEP_MS [max(0, v)] of the parsed value, and no
    value is rejected.  Engine 4.2 keeps the value of -s and of -w as
    [atoi] returns it, negative or not.  In engine 4.2 the first return
    of [getopt] that is none of 's', 'w', 'F' ends the run with the
    usage message: with code 0 when it is 'h', with code 1 otherwise,
    and it is then '?', the return for an option character that is not
    known or an option without its argument; with no such return the
    run is not ended.  So after any options -s, -w, -F that have their
    arguments, an element that starts with an unknown option
    character, or a last element -s, -w or -F, ends the run with code
    1, and -h there ends it with code 0 whatever follows; code 1 arises
    only from a '?' return of [getopt].  ([x] is a character a C string
    can hold, and not the '-' of "--".) *)
Theorem invalid_values_clamped_or_kept
  (e : environ) (prog a : string) (x : ascii) (argv : list string)
  (Hx : lookup_opt "s:w:F:h" x = None)
  (Hd : x <> "-"%char) (Hz : x <> Ascii.zero) :
  (HelloMpi.config_max_steps e
   = match getenv e "MAX_STEPS" with Some v => Z.max 1 (atoi v) | None => 120 end /\
   HelloMpi.config_sleep_ms e
   = match getenv e "SLEEP_MS" with Some v => Z.max 0 (atoi v) | None => 1000 end /\
   1 <= HelloMpi.config_max_steps e /\ 0 <= HelloMpi.config_sleep_ms e) /\
  (parse [prog; "-s"%string; a]
   = Run {| steps := atoi a; work_ms := 25; state_file := None |} /\
   parse [prog; "-w"%string; a]
   = Run {| steps := 60; work_ms := atoi a; state_file := None |}) /\
  (parse [prog; String "-" (String x EmptyString)] = Usage 1 /\
   parse [prog; "-s"%string] = Usage 1 /\
   parse [prog; "-h"%string] = Usage 0 /\
   forall code,
     parse argv = Usage code ->
     (code = 0 \/ code = 1) /\
     (code = 1 -> In "?"%char (map fst (getopt_all "s:w:F:h" (tl argv))))) /\
  match find (fun r => negb (carries_on r)) (getopt_all "s:w:F:h" (tl argv)) with
  | Some (o, _) =>
      (o = "h"%char \/ o = "?"%char) /\
      parse argv = Usage (if Ascii.eqb o "h" then 0 else 1)
  | None => exists c, parse argv = Run c
  end /\
  (forall (l : list opt_ret) (more : string) (rest : list string),
     forallb carries_on l = true ->
     parse (prog :: flags l ++ String "-" (String x more) :: rest) = Usage 1 /\
     parse (prog :: flags l ++ ["-s"%string]) = Usage 1 /\
     parse (prog :: flags l ++ ["-w"%string]) = Usage 1 /\
     parse (prog :: flags l ++ ["-F"%string]) = Usage 1 /\
     parse (prog :: flags l ++ "-h"%string :: rest) = Usage 0).
Proof.
  split; [|split; [|split; [|split]]].
  - pose proof (config_max_steps_range e). pose proof (config_sleep_ms_range e).
    split; [apply config_max_steps_eq|]. split; [apply config_sleep_ms_eq|]. lia.
  - split; reflexivity.
  - split; [|split; [reflexivity|split; [reflexivity|apply parse_usage]]].
    destruct (getopt_all_unknown x EmptyString [] Hx Hd) as [post Hpost].
    apply (parse_after_flags prog [] _ ("?"%char, EmptyString) post
             eq_refl eq_refl Hpost).
  - pose proof (options_find (getopt_all "s:w:F:h" (tl argv)) defaults) as Hfind.
    fold (parse argv) in Hfind.
    destruct (find (fun r => negb (carries_on r))
                   (getopt_all "s:w:F:h" (tl argv))) as [[o b]|] eqn:Hf;
      [|exact Hfind].
    split; [|exact Hfind].
    apply find_some in Hf. destruct Hf as [Hin Hno].
    pose proof (getopt_all_chars "s:w:F:h" _ (tl argv) (le_n _)) as Hall.
    rewrite Forall_forall in Hall. destruct (Hall (o, b) Hin) as [Hq|Hk].
    + right. exact Hq.
    + apply lookup_opt_known in Hk. cbn [fst] in Hk.
      destruct Hk as [ -> | [ -> | [ -> | -> ] ] ]; try discriminate.
      left. reflexivity.
  - intros l more rest Hl.
    destruct (getopt_all_unknown x more rest Hx Hd) as [post Hpost].
    split; [apply (parse_after_flags prog l _ ("?"%char, EmptyString) post
                     Hl eq_refl Hpost)|].
    split; [apply (parse_after_flags prog l ["-s"%string]
                     ("?"%char, EmptyString) [] Hl eq_refl eq_refl)|].
    split; [apply (parse_after_flags prog l ["-w"%string]
                     ("?"%char, EmptyString) [] Hl eq_refl eq_refl)|].
    split; [apply (parse_after_flags prog l ["-F"%string]
                     ("?"%char, EmptyString) [] Hl eq_refl eq_refl)|].
    destruct (getopt_all "s:w:F:h" ("-h"%string :: rest)) as [|r post'] eqn:Hh.
    + cbn in Hh. destruct (getopt_all "s:w:F:h" rest); discriminate.
    + assert (Hr : r = ("h"%char, EmptyString)).
      { cbn in Hh. injection Hh as <- _. reflexivity. }
      subst r.
      apply (parse_after_flags prog l _ ("h"%char, EmptyString) post'
               Hl eq_refl Hh).
Qed.

Lemma invalid_values_clamped_or_kept_witness :
  (lookup_opt "s:w:F:h" "x" = None /\ "x"%char <> "-"%char /\
   "x"%char <> Ascii.zero) /\
  HelloMpi.config_max_steps [("MAX_STEPS", "-7")%string] = 1 /\
  parse ["omp_dmtcp_demo"; "-x"]%string = Usage 1 /\
  parse ["omp_dmtcp_demo"; "-s"; "5"; "-F"; "log"; "-xh"; "-h"]%string = Usage 1 /\
  parse ["omp_dmtcp_demo"; "-s"; "5"; "-F"; "log"; "-w"]%string = Usage 1 /\
  parse ["omp_dmtcp_demo"; "-s"; "5"; "-F"; "log"; "-h"; "-x"]%string = Usage 0.
Proof.
  assert (H1 : lookup_opt "s:w:F:h" "x" = None) by reflexivity.
  assert (H2 : "x"%char <> "-"%char) by discriminate.
  assert (H3 : "x"%char <> Ascii.zero) by discriminate.
  split; [auto|].
  destruct (invalid_values_clamped_or_kept [("MAX_STEPS", "-7")%string]
              "omp_dmtcp_demo" "0" "x" [] H1 H2 H3)
    as [[Hm _] [_ [[Hu _] [_ Hfam]]]].
  split; [exact Hm|]. split; [exact Hu|].
  destruct (Hfam [("s"%char, "5"%string); ("F"%char, "log"%string)]
                 "h"%string ["-h"%string] eq_refl)
    as [Hunk [_ [Hw [_ _]]]].
  destruct (Hfam [("s"%char, "5"%string); ("F"%char, "log"%string)]
                 EmptyString ["-x"%string] eq_refl)
    as [_ [_ [_ [_ Hh]]]].
  split; [exact Hunk|]. split; [exact Hw|exact Hh].
Defined.

(** C6 as stated fails in engine 4.2: negative values of -s and -w are
    neither clamped nor rejected. *)
Lemma negative_flags_not_clamped :
  parse ["omp_dmtcp_demo"; "-s"; "-5"; "-w"; "-1"]%string
  = Run {| steps := -5; work_ms := -1; state_file := None |} /\
  ~ (forall argv c, parse argv = Run c -> 0 <= steps c /\ 0 <= work_ms c).
Proof.
  assert (H : parse ["omp_dmtcp_demo"; "-s"; "-5"; "-w"; "-1"]%string
              = Run {| steps := -5; work_ms := -1; state_file := None |})
    by reflexivity.
  split; [exact H|].
  intros Hall. destruct (Hall _ _ H) as [Hs _]. cbn in Hs. lia.
Qed.

End ConfigClaims.


(** ** The complete output of the coordinator-worker engine *)

Section MpiOutput.
Import HelloMpi MpiInv MpiObs.

Lemma zrange_length (c m : Z) : length (zrange c m) = Z.to_nat (m - c).
Proof. unfold zrange. rewrite length_map, length_seq. reflexivity. Qed.

Lemma int_gather_length (n : nat) (s : Z) : length (int_gather n s) = n.
Proof. unfold int_gather. rewrite length_map, length_seq. reflexivity. Qed.

(** The line the root prints is [step_line]: of [n] values the first
    [min n 8] are the first 8. *)
Lemma summary_step_line (n : nat) (p : proc) (c : Z) :
  size p = Z.of_nat n -> step p = c ->
  summary p (int_gather n c) = step_line n c.
Proof.
  intros Hs Hc. unfold summary, step_line. rewrite Hs, Hc.
  destruct (Z.ltb_spec (Z.of_nat n) 8) as [Hlt|Hge].
  - replace (8 <? n)%nat with false by (symmetry; apply Nat.ltb_ge; lia).
    rewrite Z.ltb_irrefl. rewrite Nat2Z.id.
    rewrite !firstn_all2 by (rewrite int_gather_length; lia). reflexivity.
  - change (Z.to_nat 8) with 8%nat.
    destruct (Z.ltb_spec 8 (Z.of_nat n)) as [H8|H8].
    + replace (8 <? n)%nat with true by (symmetry; apply Nat.ltb_lt; lia).
      reflexivity.
    + replace (8 <? n)%nat with false by (symmetry; apply Nat.ltb_ge; lia).
      reflexivity.
Qed.

Lemma usleep_arg_eq (ms : Z) :
  0 <= ms <= INT_MAX -> u32 (u32 ms * 1000) = usleep_arg ms.
Proof.
  intros H. unfold u32, usleep_arg. rewrite (Z.mod_small ms) by int_lia.
  reflexivity.
Qed.

Section Outputs.

Variable e : environ.
Variable n : nat.
Hypothesis Hn : (1 <= n)%nat.

(** One iteration, rank by rank: the root prints its line, every rank
    sleeps, no worker gets a buffer. *)
Lemma world_step_observed (c : Z) (w : world) :
  lockstep e n c w -> 0 <= c < config_max_steps e ->
  exists w',
    world_step w = Advanced w' /\
    lockstep e n (c + 1) w' /\
    map observed w'
    = map (fun p => (rank p,
                     out p ++ (if rank p =? 0 then [step_line n c] else [])
                           ++ pacing e,
                     worker_buf p)) w.
Proof.
  intros Hl Hc.
  destruct (world_step_lockstep e n Hn c w Hl Hc) as [w' [Hstep [Hl' _]]].
  exists w'. split; [exact Hstep|]. split; [exact Hl'|].
  destruct (lockstep_nonempty e n Hn c w Hl) as [p0 [rest [Hw [_ [Hc0 _]]]]].
  unfold world_step in Hstep.
  destruct (forallb_in_loop e n c w Hl) as [Hin _].
  rewrite (Hin (proj2 Hc)) in Hstep.
  replace (match w with p1 :: _ => counter p1 | [] => 0 end) with c in Hstep
    by (rewrite Hw; symmetry; exact Hc0).
  rewrite (gathered_lockstep e n c w Hl) in Hstep.
  injection Hstep as <-.
  rewrite !map_map. apply map_ext_in. intros p Hp.
  destruct Hl as [_ Hf]. rewrite Forall_forall in Hf.
  destruct (Hf p Hp) as [Hs [Hcp [_ Hsl]]].
  pose proof (config_sleep_ms_range e) as Hrange.
  unfold observed, worker_buf, pacing. cbn [finish_step compute bcast rank out
    gather_buf sleep_ms counter size step my_value max_steps].
  rewrite Hsl, (usleep_arg_eq _ Hrange).
  destruct (rank p =? 0) eqn:Hr; [|reflexivity].
  rewrite summary_step_line; [reflexivity|exact Hs|].
  cbn. rewrite Hr. exact Hcp.
Qed.

Lemma rank_script_nil (r c : Z) :
  config_max_steps e <= c -> rank_script e n r c = [].
Proof. intros H. unfold rank_script. rewrite zrange_nil by lia. reflexivity. Qed.

Lemma rank_script_cons (r c : Z) :
  c < config_max_steps e ->
  rank_script e n r c
  = ((if r =? 0 then [step_line n c] else []) ++ pacing e)
      ++ rank_script e n r (c + 1).
Proof.
  intros H. unfold rank_script. rewrite (zrange_cons c _ H). reflexivity.
Qed.

(** The whole loop, rank by rank. *)
Lemma run_loop_observed :
  forall (fuel : nat) (c : Z) (w : world),
    lockstep e n c w -> 0 <= c ->
    (Z.to_nat (config_max_steps e - c) <= fuel)%nat ->
    exists wf,
      snd (run_loop fuel w) = Done (map finish wf) /\
      lockstep e n (Z.max c (config_max_steps e)) wf /\
      map observed wf
      = map (fun p => (rank p, out p ++ rank_script e n (rank p) c,
                       worker_buf p)) w.
Proof.
  assert (Hstop : forall fuel c w,
             lockstep e n c w -> config_max_steps e <= c ->
             exists wf,
               snd (run_loop fuel w) = Done (map finish wf) /\
               lockstep e n (Z.max c (config_max_steps e)) wf /\
               map observed wf
               = map (fun p => (rank p, out p ++ rank_script e n (rank p) c,
                                worker_buf p)) w).
  { intros fuel c w Hl Hge. exists w.
    replace (run_loop fuel w) with (@nil world, Done (map finish w))
      by (destruct fuel; cbn [run_loop];
          rewrite (world_step_finished e n Hn c w Hl Hge); reflexivity).
    rewrite Z.max_l by lia. split; [reflexivity|]. split; [exact Hl|].
    apply map_ext. intros p. rewrite rank_script_nil, app_nil_r by lia.
    reflexivity. }
  induction fuel as [|f IH]; intros c w Hl Hc Hfuel.
  - apply Hstop; [exact Hl|lia].
  - destruct (Z.lt_ge_cases c (config_max_steps e)) as [Hlt|Hge];
      [|apply Hstop; assumption].
    destruct (world_step_observed c w Hl (conj Hc Hlt)) as [w' [Hstep [Hl' Hobs]]].
    destruct (IH (c + 1) w' Hl' ltac:(lia) ltac:(lia)) as [wf [Hrun [Hlf Hobsf]]].
    exists wf. cbn [run_loop]. rewrite Hstep.
    destruct (run_loop f w') as [hist o]. cbn [snd] in *.
    rewrite Z.max_r in * by lia.
    split; [exact Hrun|]. split; [exact Hlf|].
    rewrite Hobsf.
    replace (map (fun p => (rank p, out p ++ rank_script e n (rank p) (c + 1),
                            worker_buf p)) w')
      with (map (fun t : Z * list event * option (list Z) =>
                   (fst (fst t),
                    snd (fst t) ++ rank_script e n (fst (fst t)) (c + 1),
                    snd t)) (map observed w'))
      by (rewrite map_map; reflexivity).
    rewrite Hobs, map_map.
    apply map_ext. intros p. cbn [fst snd].
    rewrite (rank_script_cons _ c Hlt), <- !app_assoc. reflexivity.
Qed.

(** A whole run, rank by rank, finish line included. *)
Lemma run_observed (c : Z) (w : world) :
  lockstep e n c w -> 0 <= c ->
  exists wf,
    snd (run w) = Done wf /\
    lockstep e n (Z.max c (config_max_steps e)) wf /\
    map observed wf
    = map (fun p => (rank p,
                     out p ++ rank_script e n (rank p) c
                           ++ finish_line (rank p) (Z.max c (config_max_steps e)),
                     worker_buf p)) w.
Proof.
  intros Hl Hc. unfold run.
  destruct (run_loop_observed (remaining w) c w Hl Hc) as [wf [Hrun [Hlf Hobs]]].
  { rewrite (remaining_lockstep e n Hn c w Hl). lia. }
  exists (map finish wf). split; [exact Hrun|].
  split; [apply lockstep_finish; exact Hlf|].
  rewrite map_map.
  transitivity
    (map (fun t : Z * list event * option (list Z) =>
            (fst (fst t),
             snd (fst t)
               ++ finish_line (fst (fst t)) (Z.max c (config_max_steps e)),
             snd t)) (map observed wf)).
  - rewrite map_map. apply map_ext_in. intros p Hp.
    destruct Hlf as [_ Hf]. rewrite Forall_forall in Hf.
    destruct (Hf p Hp) as [_ [Hcp _]].
    unfold observed, worker_buf, finish_line. cbn. rewrite Hcp. reflexivity.
  - rewrite Hobs, map_map.
    apply map_ext. intros p. cbn [fst snd]. rewrite <- !app_assoc. reflexivity.
Qed.

End Outputs.

Lemma map_eq_head {A B C : Type} (f : A -> C) (g : B -> C)
      (l : list A) (p0 : B) (rest : list B) :
  map f l = map g (p0 :: rest) -> exists q0 l', l = q0 :: l' /\ f q0 = g p0.
Proof.
  destruct l as [|q0 l']; [discriminate|]. cbn. intros H.
  injection H as H0 _. eauto.
Qed.

Lemma map_eq_In {A B C : Type} (f : A -> C) (g : B -> C)
      (l : list A) (l2 : list B) :
  map f l = map g l2 -> forall q, In q l -> exists p, In p l2 /\ f q = g p.
Proof.
  intros H q Hq. apply (in_map f) in Hq. rewrite H in Hq.
  apply in_map_iff in Hq. destruct Hq as [p [Hp Hin]]. eauto.
Qed.

Lemma sleeps_app (l1 l2 : list event) : sleeps (l1 ++ l2) = sleeps l1 ++ sleeps l2.
Proof.
  induction l1 as [|ev l1 IH]; [reflexivity|].
  destruct ev; cbn; rewrite IH; reflexivity.
Qed.

Lemma lines_app (l1 l2 : list event) : lines (l1 ++ l2) = lines l1 ++ lines l2.
Proof.
  induction l1 as [|ev l1 IH]; [reflexivity|].
  destruct ev; cbn; rewrite IH; reflexivity.
Qed.

Lemma rank_script_eq (e : environ) (n : nat) (r c : Z) :
  rank_script e n r c
  = flat_map (fun s => (if r =? 0 then [step_line n s] else []) ++ pacing e)
             (zrange c (config_max_steps e)).
Proof. reflexivity. Qed.

(** The sleeps of a script: one per iteration, or none. *)
Lemma sleeps_flat_map (e : environ) (n : nat) (r : Z) (l : list Z) :
  sleeps (flat_map (fun s => (if r =? 0 then [step_line n s] else []) ++ pacing e) l)
  = if 0 <? config_sleep_ms e
    then repeat (usleep_arg (config_sleep_ms e)) (length l)
    else [].
Proof.
  induction l as [|s l IH].
  - destruct (0 <? config_sleep_ms e); reflexivity.
  - cbn [flat_map length repeat]. rewrite !sleeps_app, IH.
    unfold pacing. destruct (r =? 0); destruct (0 <? config_sleep_ms e); reflexivity.
Qed.

(** The lines of a worker's script: none. *)
Lemma lines_script_worker (e : environ) (n : nat) (r : Z) (l : list Z) :
  (r =? 0) = false ->
  lines (flat_map (fun s => (if r =? 0 then [step_line n s] else []) ++ pacing e) l)
  = [].
Proof.
  intros Hr. induction l as [|s l IH]; [reflexivity|].
  cbn [flat_map]. rewrite lines_app, IH, Hr. unfold pacing.
  destruct (0 <? config_sleep_ms e); reflexivity.
Qed.

(** The processes of a fresh launch. *)
Lemma init_world_In (e : environ) (n : nat) (p : proc) :
  In p (init_world e n) ->
  sleeps (out p) = [] /\
  (rank p <> 0 -> out p = [] /\ gather_buf p = None).
Proof.
  unfold init_world, world_at. rewrite map_map. intros Hp.
  apply in_map_iff in Hp. destruct Hp as [r [<- _]]. cbn.
  destruct (Z.of_nat r =? 0) eqn:Hr.
  - split; [reflexivity|]. intros H. apply Z.eqb_eq in Hr. contradiction.
  - split; [reflexivity|]. intros _. split; reflexivity.
Qed.

(** X1.  A run taken up with counter [c] on every rank (a fresh run
    has [c = 0]) adds to the root's output, in this order and nothing
    else: for each step [c .. max_steps - 1] the summary line of that
    step followed by the pacing sleep, then the finish line, which
    reports [max_steps] (or [c], when [c] is already past it). *)
Theorem root_output_complete (e : environ) (n : nat) (c : Z) (w : world)
  (Hn : (1 <= n)%nat) (Hl : lockstep e n c w) (Hc : 0 <= c) :
  root_out (run w)
  = root_events w
      ++ flat_map (fun s => step_line n s :: pacing e)
                  (zrange c (config_max_steps e))
      ++ [EvFinish (Z.max c (config_max_steps e))].
Proof.
  destruct (run_observed e n Hn c w Hl Hc) as [wf [Hrun [_ Hobs]]].
  destruct (lockstep_nonempty e n Hn c w Hl) as [p0 [rest [Hw [Hr0 _]]]].
  rewrite Hw in Hobs. destruct (map_eq_head _ _ _ _ _ Hobs) as [q0 [l' [Hwf Hq0]]].
  unfold root_out, final_world. rewrite Hrun, Hwf, Hw. cbn [root_events].
  unfold observed in Hq0. injection Hq0 as _ Hout _.
  rewrite Hout, Hr0. reflexivity.
Qed.

Lemma root_output_complete_witness :
  ((1 <= 2)%nat /\
   lockstep [("MAX_STEPS", "2")%string; ("SLEEP_MS", "5")%string] 2 0
            (init_world [("MAX_STEPS", "2")%string; ("SLEEP_MS", "5")%string] 2) /\
   0 <= 0) /\
  root_out (main [("MAX_STEPS", "2")%string; ("SLEEP_MS", "5")%string] 2)
  = [EvStart 2; EvStep 0 [0; 1] None; EvUsleep 5000;
     EvStep 1 [0; 2] None; EvUsleep 5000; EvFinish 2].
Proof.
  assert (H1 : (1 <= 2)%nat) by lia.
  assert (H2 : lockstep [("MAX_STEPS", "2")%string; ("SLEEP_MS", "5")%string] 2 0
                 (init_world [("MAX_STEPS", "2")%string; ("SLEEP_MS", "5")%string] 2)).
  { split; [reflexivity|]. repeat constructor. }
  assert (H3 : 0 <= 0) by lia.
  split; [auto|].
  exact (root_output_complete [("MAX_STEPS", "2")%string; ("SLEEP_MS", "5")%string]
           2 0 _ H1 H2 H3).
Defined.

(** X2.  Every summary line the root prints in a fresh run of [n]
    ranks belongs to a step below max_steps, shows the first
    [min n 8] gathered values, and reports the number of values left
    out, [n - 8], exactly when [n > 8]: shown and left out add up to
    [n]. *)
Theorem summary_line_shape (e : environ) (n : nat)
  (s : Z) (shown : list Z) (more : option Z)
  (Hn : (1 <= n)%nat)
  (Hin : In (EvStep s shown more) (root_out (main e n))) :
  0 <= s < config_max_steps e /\
  shown = firstn 8 (int_gather n s) /\
  length shown = Nat.min n 8 /\
  more = (if (8 <? n)%nat then Some (Z.of_nat n - 8) else None) /\
  Z.of_nat (length shown) + match more with Some k => k | None => 0 end
  = Z.of_nat n.
Proof.
  unfold main in Hin.
  destruct (run_observed e n Hn 0 (init_world e n) (lockstep_init e n) ltac:(lia))
    as [wf [Hrun [_ Hobs]]].
  destruct (lockstep_nonempty e n Hn 0 _ (lockstep_init e n))
    as [p0 [rest [Hw [Hr0 _]]]].
  pose proof (root_events_init e n Hn) as Hinit.
  rewrite Hw in Hobs, Hinit.
  destruct (map_eq_head _ _ _ _ _ Hobs) as [q0 [l' [Hwf Hq0]]].
  unfold root_out, final_world in Hin. rewrite Hrun, Hwf in Hin.
  cbn [root_events] in Hin, Hinit.
  unfold observed in Hq0. injection Hq0 as _ Hout _.
  rewrite Hout, Hinit, Hr0 in Hin. cbn [app] in Hin.
  destruct Hin as [Hin|Hin]; [discriminate|].
  apply in_app_or in Hin. destruct Hin as [Hin|Hin].
  - unfold rank_script in Hin. apply in_flat_map in Hin.
    destruct Hin as [s0 [Hs0 Hin]]. apply zrange_In in Hs0.
    cbn [Z.eqb app] in Hin. apply in_inv in Hin. destruct Hin as [Hin|Hin].
    + assert (Hlen : length (firstn 8 (int_gather n s0)) = Nat.min n 8).
      { rewrite length_firstn, int_gather_length. lia. }
      unfold step_line in Hin.
      remember (firstn 8 (int_gather n s0)) as sh eqn:Hsh.
      injection Hin as <- <- <-.
      split; [lia|]. split; [exact Hsh|].
      split; [exact Hlen|]. split; [reflexivity|]. rewrite Hlen.
      destruct (Nat.ltb_spec 8 n); lia.
    + unfold pacing in Hin. destruct (0 <? config_sleep_ms e); [|contradiction].
      destruct Hin as [Hin|[]]. discriminate.
  - unfold finish_line in Hin. cbn in Hin. destruct Hin as [Hin|[]]. discriminate.
Qed.

Lemma summary_line_shape_witness :
  ((1 <= 10)%nat /\
   In (EvStep 0 [0; 1; 2; 3; 4; 5; 6; 7] (Some 2))
      (root_out (main [("MAX_STEPS", "1")%string; ("SLEEP_MS", "0")%string] 10))) /\
  length [0; 1; 2; 3; 4; 5; 6; 7] = Nat.min 10 8.
Proof.
  assert (H1 : (1 <= 10)%nat) by lia.
  assert (H2 : In (EvStep 0 [0; 1; 2; 3; 4; 5; 6; 7] (Some 2))
                  (root_out (main [("MAX_STEPS", "1")%string;
                                   ("SLEEP_MS", "0")%string] 10)))
    by (vm_compute; auto).
  split; [auto|].
  exact (proj1 (proj2 (proj2 (summary_line_shape _ 10 0 _ _ H1 H2)))).
Defined.

(** X3.  In a fresh run a rank other than the root prints no line at
    all, its output holds sleeps only, and its gather buffer stays
    NULL to the end. *)
Theorem workers_only_sleep (e : environ) (n : nat) (Hn : (1 <= n)%nat) :
  exists wf,
    snd (main e n) = Done wf /\
    map rank wf = map Z.of_nat (seq 0 n) /\
    Forall (fun p => rank p <> 0 -> lines (out p) = [] /\ gather_buf p = None) wf.
Proof.
  unfold main.
  destruct (run_observed e n Hn 0 (init_world e n) (lockstep_init e n) ltac:(lia))
    as [wf [Hrun [[Hranks _] Hobs]]].
  exists wf. split; [exact Hrun|]. split; [exact Hranks|].
  apply Forall_forall. intros q Hq Hr.
  destruct (map_eq_In _ _ _ _ Hobs q Hq) as [p [Hp Heq]].
  unfold observed in Heq. injection Heq as Hrk Hout Hbuf.
  destruct (init_world_In e n p Hp) as [_ Hworker].
  destruct (Hworker ltac:(congruence)) as [Hout0 Hbuf0].
  assert (Hrz : (rank p =? 0) = false) by (apply Z.eqb_neq; congruence).
  split.
  - rewrite Hout, Hout0. cbn [app]. rewrite lines_app. unfold rank_script.
    rewrite (lines_script_worker e n _ _ Hrz). unfold finish_line.
    rewrite Hrz. reflexivity.
  - unfold worker_buf in Hbuf. rewrite Hrz in Hbuf.
    replace (rank q =? 0) with false in Hbuf
      by (symmetry; apply Z.eqb_neq; exact Hr).
    congruence.
Qed.

Lemma workers_only_sleep_witness :
  (1 <= 3)%nat /\
  exists wf,
    snd (main [("MAX_STEPS", "2")%string] 3) = Done wf /\
    map rank wf = [0; 1; 2].
Proof.
  assert (H1 : (1 <= 3)%nat) by lia.
  split; [exact H1|].
  destruct (workers_only_sleep [("MAX_STEPS", "2")%string] 3 H1)
    as [wf [Hrun [Hranks _]]].
  exists wf. split; [exact Hrun|exact Hranks].
Defined.

(** X4.  In a fresh run every rank, root and workers alike, calls
    [usleep] exactly max_steps times when the delay is positive and
    never when it is 0, each time with [(sleep_ms * 1000) mod 2^32]
    microseconds: the full delay up to 4294967 ms, a shorter one
    beyond, where the [useconds_t] product wraps. *)
Theorem every_rank_sleeps_once_per_step (e : environ) (n : nat)
  (Hn : (1 <= n)%nat) :
  (exists wf,
      snd (main e n) = Done wf /\
      Forall (fun p =>
                sleeps (out p)
                = if 0 <? config_sleep_ms e
                  then repeat (usleep_arg (config_sleep_ms e))
                              (Z.to_nat (config_max_steps e))
                  else []) wf) /\
  (config_sleep_ms e <= 4294967 ->
   usleep_arg (config_sleep_ms e) = config_sleep_ms e * 1000) /\
  (4294967 < config_sleep_ms e ->
   usleep_arg (config_sleep_ms e) < config_sleep_ms e * 1000).
Proof.
  pose proof (config_sleep_ms_range e) as Hsl.
  split; [|split].
  - unfold main.
    destruct (run_observed e n Hn 0 (init_world e n) (lockstep_init e n) ltac:(lia))
      as [wf [Hrun [_ Hobs]]].
    exists wf. split; [exact Hrun|].
    apply Forall_forall. intros q Hq.
    destruct (map_eq_In _ _ _ _ Hobs q Hq) as [p [Hp Heq]].
    unfold observed in Heq. injection Heq as _ Hout _.
    destruct (init_world_In e n p Hp) as [Hs0 _].
    rewrite Hout, !sleeps_app, Hs0. unfold rank_script.
    rewrite sleeps_flat_map, zrange_length, Z.sub_0_r.
    unfold finish_line.
    destruct (rank p =? 0); destruct (0 <? config_sleep_ms e); cbn;
      rewrite ?app_nil_r; reflexivity.
  - intros Hle. unfold usleep_arg. apply Z.mod_small. lia.
  - intros Hgt. unfold usleep_arg.
    pose proof (Z.mod_pos_bound (config_sleep_ms e * 1000) (2 ^ 32) ltac:(lia)).
    lia.
Qed.

Lemma every_rank_sleeps_once_per_step_witness :
  (1 <= 2)%nat /\
  exists wf,
    snd (main [("MAX_STEPS", "2")%string; ("SLEEP_MS", "4294968")%string] 2)
    = Done wf /\
    Forall (fun p => sleeps (out p) = [704; 704]) wf.
Proof.
  assert (H1 : (1 <= 2)%nat) by lia.
  split; [exact H1|].
  destruct (every_rank_sleeps_once_per_step
              [("MAX_STEPS", "2")%string; ("SLEEP_MS", "4294968")%string] 2 H1)
    as [[wf [Hrun Hall]] _].
  exists wf. split; [exact Hrun|exact Hall].
Defined.

End MpiOutput.


(** ** More on busy_work_ms *)

Section BusyWorkMore.
Import OmpDemo OmpInv OmpObs.

(** The turn on which the loop breaks is the first on which the test
    succeeds. *)
Lemma poll_first (clk : clock) (tgt : Z) (start : timespec) :
  forall (fuel k0 k : nat),
    poll clk tgt start k0 fuel = Some k ->
    (k0 <= k < k0 + fuel)%nat /\
    tgt <= us start (clk k) /\
    forall j, (k0 <= j < k)%nat -> us start (clk j) < tgt.
Proof.
  induction fuel as [|f IH]; intros k0 k Hp; [discriminate|].
  cbn in Hp. destruct (Z.leb_spec tgt (us start (clk k0))) as [Hle|Hlt].
  - injection Hp as <-. split; [lia|]. split; [exact Hle|]. intros j Hj. lia.
  - destruct (IH (S k0) k Hp) as [Hk [Ht Hbefore]].
    split; [lia|]. split; [exact Ht|]. intros j Hj.
    destruct (Nat.eq_dec j k0) as [->|Hne]; [exact Hlt|]. apply Hbefore. lia.
Qed.

Lemma us_nonneg (start now : timespec) : 0 <= us start now.
Proof. unfold us, u64. apply Z.mod_pos_bound. lia. Qed.

(** With the nanoseconds below the start's the computed [us] is beyond
    every target of a non-negative [ms]. *)
Lemma us_jumps (start now : timespec) (ms : Z) :
  reading_ok start now -> 0 <= ms <= INT_MAX ->
  tv_nsec now < tv_nsec start ->
  target ms <= us start now.
Proof.
  intros Hok Hms Hlt.
  rewrite (target_nonneg ms Hms), (us_eq start now Hok).
  destruct Hok as [Hs [Hn Hd]]. unfold INT_MAX in *.
  destruct (Z.ltb_spec (tv_nsec now - tv_nsec start) 0) as [_|Hpos]; [|lia].
  assert ((2 ^ 64 - 10 ^ 9) / 1000 <= (tv_nsec now - tv_nsec start + 2 ^ 64) / 1000)
    by (apply Z.div_le_mono; lia).
  change ((2 ^ 64 - 10 ^ 9) / 1000) with 18446744072709551 in *. lia.
Qed.

(** X6.  When [busy_work_ms] returns, it does so on the first turn of
    its loop on which the computed [us] has reached the target: the
    test failed on every turn before. *)
Theorem busy_work_ms_breaks_at_first_hit
  (clk : clock) (ms : Z) (fuel k : nat)
  (Hret : busy_work_ms clk ms fuel = Some k) :
  (1 <= k <= fuel)%nat /\
  target ms <= us (clk O) (clk k) /\
  forall j, (1 <= j < k)%nat -> us (clk O) (clk j) < target ms.
Proof.
  unfold busy_work_ms in Hret.
  destruct (poll_first clk (target ms) (clk O) fuel 1 k Hret) as [Hk [Ht Hb]].
  split; [lia|]. split; [exact Ht|exact Hb].
Qed.

Lemma busy_work_ms_breaks_at_first_hit_witness :
  busy_work_ms second_clock 2500 10 = Some 3%nat /\
  us (second_clock O) (second_clock 2%nat) < target 2500.
Proof.
  assert (H : busy_work_ms second_clock 2500 10 = Some 3%nat) by reflexivity.
  split; [exact H|].
  apply (proj2 (proj2 (busy_work_ms_breaks_at_first_hit second_clock 2500 10 3 H))).
  lia.
Defined.

(** X7.  As soon as a reading has its nanoseconds below those of the
    start reading, [busy_work_ms] returns, for every [ms >= 0] and
    however little time has gone by: the unsigned division turns the
    negative difference into a value beyond every target. *)
Theorem busy_work_ms_returns_early
  (clk : clock) (ms : Z) (k : nat)
  (Hms : 0 <= ms <= INT_MAX) (Hk : (1 <= k)%nat)
  (Hok : reading_ok (clk O) (clk k))
  (Hbelow : tv_nsec (clk k) < tv_nsec (clk O)) :
  exists r, busy_work_ms clk ms k = Some r /\ (1 <= r <= k)%nat.
Proof.
  pose proof (us_jumps _ _ ms Hok Hms Hbelow) as Ht.
  destruct (poll_some clk (target ms) (clk O) k Ht (k - 1) 1%nat ltac:(lia))
    as [r Hr].
  replace (S (k - 1)) with k in Hr by lia.
  exists r. split; [exact Hr|].
  destruct (poll_first clk (target ms) (clk O) k 1 r Hr) as [Hrk _]. lia.
Qed.

Lemma busy_work_ms_returns_early_witness :
  (0 <= 5000 <= INT_MAX /\ (1 <= 1)%nat /\
   reading_ok (late_start_clock O) (late_start_clock 1%nat) /\
   tv_nsec (late_start_clock 1%nat) < tv_nsec (late_start_clock O)) /\
  elapsed_ns (late_start_clock O) (late_start_clock 1%nat) = 200000000 /\
  exists r, busy_work_ms late_start_clock 5000 1 = Some r.
Proof.
  assert (H1 : 0 <= 5000 <= INT_MAX) by int_lia.
  assert (H2 : (1 <= 1)%nat) by lia.
  assert (H3 : reading_ok (late_start_clock O) (late_start_clock 1%nat))
    by (vm_compute; repeat split; discriminate).
  assert (H4 : tv_nsec (late_start_clock 1%nat) < tv_nsec (late_start_clock O))
    by (vm_compute; reflexivity).
  split; [auto|]. split; [reflexivity|].
  destruct (busy_work_ms_returns_early late_start_clock 5000 1 H1 H2 H3 H4)
    as [r [Hr _]].
  exists r. exact Hr.
Defined.

(** X8.  As long as the nanoseconds of a reading are not below those
    of the start reading, the computed [us] is exact: the elapsed
    nanoseconds divided by 1000, rounded down. *)
Theorem us_exact_without_borrow (start now : timespec)
  (Hok : reading_ok start now) (Hge : tv_nsec start <= tv_nsec now) :
  us start now = elapsed_ns start now / 1000.
Proof.
  rewrite (us_eq start now Hok). unfold elapsed_ns.
  destruct (Z.ltb_spec (tv_nsec now - tv_nsec start) 0) as [Hneg|_]; [lia|].
  replace ((tv_sec now - tv_sec start) * 10 ^ 9)
    with ((tv_sec now - tv_sec start) * 1000000 * 1000) by lia.
  rewrite Z.div_add_l by lia. reflexivity.
Qed.

Lemma us_exact_without_borrow_witness :
  (reading_ok (mkTimespec 7 250000000) (mkTimespec 9 750000999) /\
   tv_nsec (mkTimespec 7 250000000) <= tv_nsec (mkTimespec 9 750000999)) /\
  us (mkTimespec 7 250000000) (mkTimespec 9 750000999) = 2500000.
Proof.
  assert (H1 : reading_ok (mkTimespec 7 250000000) (mkTimespec 9 750000999))
    by (vm_compute; repeat split; discriminate).
  assert (H2 : tv_nsec (mkTimespec 7 250000000) <= tv_nsec (mkTimespec 9 750000999))
    by (vm_compute; discriminate).
  split; [auto|].
  exact (us_exact_without_borrow _ _ H1 H2).
Defined.

End BusyWorkMore.

(** ** More on the command line and the step loop of the thread-barrier engine *)

Section OmpMore.
Import OmpDemo OmpInv OmpObs.

(** X9.  When every option given is one of -s, -w, -F, the
    configuration takes, for each of them, the argument of its last
    occurrence, and keeps the default where the option does not occur. *)
Theorem switch_last_occurrence_wins (rets : list opt_ret) (c : config)
  (Hall : forallb carries_on rets = true) :
  options rets c
  = Run {| steps := match last_arg "s" rets with
                    | Some a => atoi a
                    | None => steps c
                    end;
           work_ms := match last_arg "w" rets with
                      | Some a => atoi a
                      | None => work_ms c
                      end;
           state_file := match last_arg "F" rets with
                         | Some a => Some a
                         | None => state_file c
                         end |}.
Proof.
  revert c Hall. induction rets as [|[o a] rest IH]; intros c Hall.
  - destruct c. reflexivity.
  - cbn [forallb] in Hall. apply andb_true_iff in Hall. destruct Hall as [Ho Hrest].
    destruct (carries_on_cases o a Ho) as [ -> | [ -> | -> ] ];
      cbn [options last_arg Ascii.eqb Bool.eqb]; rewrite (IH _ Hrest);
      cbn [steps work_ms state_file];
      destruct (last_arg "s" rest), (last_arg "w" rest), (last_arg "F" rest);
      reflexivity.
Qed.

Lemma switch_last_occurrence_wins_witness :
  forallb carries_on (getopt_all "s:w:F:h" ["-s"; "3"; "-w"; "9"; "-s"; "7"]%string)
  = true /\
  parse ["demo"; "-s"; "3"; "-w"; "9"; "-s"; "7"]%string
  = Run {| steps := 7; work_ms := 9; state_file := None |}.
Proof.
  assert (H : forallb carries_on
                (getopt_all "s:w:F:h" ["-s"; "3"; "-w"; "9"; "-s"; "7"]%string)
              = true) by reflexivity.
  split; [exact H|].
  exact (switch_last_occurrence_wins _ defaults H).
Defined.

(** X10.  The switch leaves at the first return that is none of 's',
    'w', 'F': with code 0 when it is 'h', with code 1 otherwise.
    Whatever was set before is dropped and whatever follows on the
    command line is not looked at. *)
Theorem switch_stops_at_first_other
  (pre post : list opt_ret) (o : ascii) (a : string) (c : config)
  (Hpre : forallb carries_on pre = true) (Ho : carries_on (o, a) = false) :
  options (pre ++ (o, a) :: post) c = Usage (if Ascii.eqb o "h" then 0 else 1).
Proof.
  revert c. induction pre as [|[o' a'] pre IH]; intros c.
  - unfold carries_on in Ho. cbn [fst] in Ho.
    apply orb_false_iff in Ho. destruct Ho as [Ho HF].
    apply orb_false_iff in Ho. destruct Ho as [Hs Hw].
    cbn [app options]. rewrite Hs, Hw, HF. reflexivity.
  - cbn [forallb] in Hpre. apply andb_true_iff in Hpre.
    destruct Hpre as [Ho' Hpre].
    destruct (carries_on_cases o' a' Ho') as [ -> | [ -> | -> ] ];
      cbn [app options Ascii.eqb Bool.eqb]; apply (IH Hpre).
Qed.

Lemma switch_stops_at_first_other_witness :
  (forallb carries_on [("s"%char, "5"%string)] = true /\
   carries_on ("h"%char, EmptyString) = false) /\
  parse ["demo"; "-s"; "5"; "-h"; "-q"]%string = Usage 0 /\
  parse ["demo"; "-s"; "5"; "-q"; "-h"]%string = Usage 1.
Proof.
  assert (H1 : forallb carries_on [("s"%char, "5"%string)] = true) by reflexivity.
  assert (H2 : carries_on ("h"%char, EmptyString) = false) by reflexivity.
  split; [auto|]. split; [|reflexivity].
  exact (switch_stops_at_first_other [("s"%char, "5"%string)]
           [("?"%char, EmptyString)] "h" EmptyString defaults H1 H2).
Defined.

(** A thread whose clock is sane never leaves [busy_work_ms] of a
    negative [work_ms]. *)
Lemma returns_negative (h : host) (c : config) (s : Z) (fuel tid : nat) :
  INT_MIN <= work_ms c < 0 -> clock_sane (clocks h s tid) ->
  returns h c s fuel tid = false.
Proof.
  intros Hw Hclk. unfold returns.
  destruct (busy_work_ms (clocks h s tid) (work_ms c) fuel) as [k|] eqn:Hb;
    [|reflexivity].
  exfalso. apply (busy_work_ms_spins (clocks h s tid) (work_ms c) Hw Hclk).
  exists fuel, k. exact Hb.
Qed.

Lemma filter_none {A : Type} (p : A -> bool) (l : list A) :
  (forall x, In x l -> p x = false) -> filter p l = [].
Proof.
  induction l as [|x l IH]; intros H; [reflexivity|].
  cbn [filter]. rewrite (H x (or_introl eq_refl)).
  apply IH. intros y Hy. apply H. right. exact Hy.
Qed.

(** X11.  With a negative -w and at least one step to run, the run
    never gets past step 0 while the clock of thread 0 is sane:
    whatever the fuel, the team waits at the barrier of step 0, no
    iteration has completed, the state file is as it was, and stdout
    holds the banner and the lines of those threads of step 0 that did
    leave their busy loop.  The line of thread 0 is never among them,
    and there is none at all when the clocks of all the threads are
    sane. *)
Theorem negative_work_never_completes
  (h : host) (argv : list string) (f : option (list entry)) (c : config)
  (Hp : parse argv = Run c) (Hw : work_ms c < 0) (Hs : 1 <= steps c)
  (Hclk : clock_sane (clocks h 0 O)) :
  forall fuel,
    main h argv f fuel
    = ([], Spinning {| step := 0; global_counter := 0; file := f;
                       stdout := EvBanner (Zpos (max_threads h))
                                   :: printed h c 0 fuel |}) /\
    (forall nth, ~ In (EvThread 0 0 nth) (printed h c 0 fuel)) /\
    ((forall tid, In tid (sched h 0) -> clock_sane (clocks h 0 tid)) ->
     printed h c 0 fuel = []).
Proof.
  intros fuel. destruct (parse_range argv c Hp) as [_ [Hlo _]].
  assert (Hw' : INT_MIN <= work_ms c < 0) by lia.
  split; [|split].
  - unfold main. rewrite Hp. unfold run_from.
    change (step (init_state h f)) with 0.
    replace (Z.to_nat (steps c - 0)) with (S (Z.to_nat (steps c - 1))) by lia.
    cbn [loop]. change (step (init_state h f)) with 0.
    replace (0 <? steps c) with true by (symmetry; apply Z.ltb_lt; lia).
    replace (parallel_region h c fuel (init_state h f))
      with (@None (state * iteration)); [reflexivity|].
    unfold parallel_region. change (step (init_state h f)) with 0.
    replace (team_returns h c 0 fuel) with false; [reflexivity|].
    unfold team_returns.
    destruct (Pos2Nat.is_succ (nthreads h 0)) as [m ->]. cbn [seq forallb].
    rewrite (returns_negative h c 0 fuel O Hw' Hclk). reflexivity.
  - intros nth Hin. unfold printed in Hin. apply in_map_iff in Hin.
    destruct Hin as [tid [Heq Hin]]. apply filter_In in Hin.
    destruct Hin as [_ Hret]. unfold thread_line in Heq.
    injection Heq as Htid _.
    assert (tid = O) by lia. subst tid.
    rewrite (returns_negative h c 0 fuel O Hw' Hclk) in Hret. discriminate.
  - intros Hall. unfold printed. rewrite filter_none; [reflexivity|].
    intros tid Hin. apply returns_negative; [exact Hw'|apply Hall; exact Hin].
Qed.

Lemma negative_work_never_completes_witness :
  (parse ["demo"; "-s"; "2"; "-w"; "-1"]%string = Run (mkConfig 2 (-1) None) /\
   work_ms (mkConfig 2 (-1) None) < 0 /\ 1 <= steps (mkConfig 2 (-1) None) /\
   clock_sane (clocks uneven_host 0 O)) /\
  main uneven_host ["demo"; "-s"; "2"; "-w"; "-1"]%string None 1000
  = ([], Spinning {| step := 0; global_counter := 0; file := None;
                     stdout := [EvBanner 4; EvThread 0 1 2] |}).
Proof.
  assert (H1 : parse ["demo"; "-s"; "2"; "-w"; "-1"]%string
               = Run (mkConfig 2 (-1) None)) by reflexivity.
  assert (H2 : work_ms (mkConfig 2 (-1) None) < 0) by (cbn; lia).
  assert (H3 : 1 <= steps (mkConfig 2 (-1) None)) by (cbn; lia).
  assert (H4 : clock_sane (clocks uneven_host 0 O)).
  { intros k. unfold reading_ok. cbn. lia. }
  split; [auto|].
  exact (proj1 (negative_work_never_completes uneven_host _ None _
                  H1 H2 H3 H4 1000%nat)).
Defined.

(** X12.  With -w 0 every thread leaves [busy_work_ms] after a single
    reading of the clock, whatever the clock shows, and the run reaches
    its DONE line on every host. *)
Theorem zero_work_always_completes
  (h : host) (argv : list string) (f : option (list entry)) (c : config)
  (Hp : parse argv = Run c) (Hw : work_ms c = 0) :
  (forall clk fuel, busy_work_ms clk 0 (S fuel) = Some 1%nat) /\
  exists st, snd (main h argv f 1) = Done st.
Proof.
  assert (Hone : forall clk fuel, busy_work_ms clk 0 (S fuel) = Some 1%nat).
  { intros clk fuel. unfold busy_work_ms. cbn [poll].
    change (target 0) with 0.
    pose proof (us_nonneg (clk O) (clk 1%nat)) as Hus.
    destruct (Z.leb_spec 0 (us (clk O) (clk 1%nat))); [reflexivity|lia]. }
  split; [exact Hone|].
  destruct (parse_range argv c Hp) as [[_ Hc] _].
  destruct (loop_completes h c 1 Hc
              (Z.to_nat (steps c - step (init_state h f))) (init_state h f)
              (is_int_init h f) (le_n _))
    as [hist [st Hrun]].
  { intros s _. apply team_returns_iff. intros tid _. exists 1%nat.
    rewrite Hw. apply Hone. }
  exists st. unfold main. rewrite Hp. unfold run_from. rewrite Hrun. reflexivity.
Qed.

Lemma zero_work_always_completes_witness :
  (parse ["demo"; "-s"; "2"; "-w"; "0"]%string = Run (mkConfig 2 0 None) /\
   work_ms (mkConfig 2 0 None) = 0) /\
  exists st, snd (main demo_host ["demo"; "-s"; "2"; "-w"; "0"]%string None 1)
             = Done st.
Proof.
  assert (H1 : parse ["demo"; "-s"; "2"; "-w"; "0"]%string
               = Run (mkConfig 2 0 None)) by reflexivity.
  assert (H2 : work_ms (mkConfig 2 0 None) = 0) by reflexivity.
  split; [auto|].
  exact (proj2 (zero_work_always_completes demo_host _ None _ H1 H2)).
Defined.

(** What one pass through the parallel region prints and writes. *)
Lemma parallel_region_io (h : host) (c : config) (fuel : nat)
      (st st' : state) (it : iteration) :
  parallel_region h c fuel st = Some (st', it) ->
  stdout st' = stdout st ++ printed h c (step st) fuel /\
  team_returns h c (step st) fuel = true /\
  it_open it = match state_file c with
               | Some _ => Some (open_mode (step st), fopen_ok h (step st))
               | None => None
               end /\
  it_entry it = match state_file c with
                | Some _ =>
                    if fopen_ok h (step st)
                    then Some {| e_time := time_at h (step st);
                                 e_step := step st;
                                 e_counter := global_counter st;
                                 e_threads := Zpos (nthreads h (step st)) |}
                    else None
                | None => None
                end.
Proof.
  unfold parallel_region, single, before_barrier.
  destruct (team_returns h c (step st) fuel); [|discriminate].
  cbn [step global_counter file stdout].
  destruct (state_file c) as [path|]; [destruct (fopen_ok h (step st))|];
    intros H; injection H as <- <-; cbn; auto.
Qed.

(** When the barrier lets the team through, every thread of the
    scheduler's order has printed. *)
Lemma printed_whole_team (h : host) (c : config) (s : Z) (fuel : nat) :
  team_returns h c s fuel = true ->
  Permutation (sched h s) (seq 0 (Pos.to_nat (nthreads h s))) ->
  printed h c s fuel = thread_lines h s.
Proof.
  intros Hteam Hperm. unfold printed, thread_lines. f_equal.
  apply forallb_filter_id. apply forallb_forall. intros tid Hin.
  unfold team_returns in Hteam. rewrite forallb_forall in Hteam.
  apply Hteam. apply (Permutation_in _ Hperm). exact Hin.
Qed.

Section RunsMore.

Variable h : host.
Variable c : config.
Variable fuel : nat.

(** The entries of a run in which [step] and [global_counter] agree. *)
Lemma runs_entries (path : string) st hist o :
  runs h c fuel st hist o -> step st = global_counter st ->
  state_file c = Some path ->
  entries_written hist
  = map (entry_of h) (filter (fopen_ok h) (map it_step hist)).
Proof.
  intros Hruns Heq Hsf.
  induction Hruns as [| | |st st' it hist o Hlt Hpar _ IH]; try reflexivity.
  destruct (parallel_region_io h c fuel st st' it Hpar) as [_ [_ [_ He]]].
  destruct (parallel_region_spec h c fuel st st' it Hpar)
    as [Hs [Hg [His _]]].
  rewrite Hsf in He.
  cbn [entries_written flat_map map filter]. fold (entries_written hist).
  rewrite IH by (cbn; congruence). rewrite His, He.
  destruct (fopen_ok h (step st)); [|reflexivity].
  cbn [app map]. unfold entry_of. rewrite <- Heq. reflexivity.
Qed.

(** Without a state file nothing is opened and the file stays as it is. *)
Lemma runs_no_state_file st hist o :
  runs h c fuel st hist o -> state_file c = None ->
  Forall (fun it => it_open it = None /\ it_entry it = None) hist /\
  forall st', last_state o = Some st' -> file st' = file st.
Proof.
  intros Hruns Hsf.
  induction Hruns as [st Hge|st Hlt Hpar|st Hlt|st st' it hist o Hlt Hpar _ IH].
  - split; [constructor|]. cbn. intros st' H. injection H as <-. reflexivity.
  - split; [constructor|]. cbn. intros st' H. injection H as <-. reflexivity.
  - split; [constructor|]. cbn. intros st' H. injection H as <-. reflexivity.
  - destruct (parallel_region_io h c fuel st st' it Hpar) as [_ [_ [Ho He]]].
    destruct (parallel_region_spec h c fuel st st' it Hpar)
      as [_ [_ [_ [_ [_ [_ [_ Hnw]]]]]]].
    rewrite Hsf in Ho, He. destruct IH as [IH1 IH2].
    split; [constructor; auto|].
    intros st1 H1. rewrite (IH2 st1 H1). cbn. apply Hnw. exact He.
Qed.

(** What a run has printed when it stops: the lines of the completed
    iterations, and then the DONE line, or the lines of the threads
    that reached the barrier the team is held at. *)
Lemma runs_stdout st hist o :
  runs h c fuel st hist o ->
  forall st', last_state o = Some st' ->
    stdout st'
    = stdout st ++ flat_map (fun s => printed h c s fuel) (map it_step hist)
        ++ match o with
           | Done _ => [EvDone (steps c) (global_counter st')]
           | Spinning _ => printed h c (step st') fuel
           | _ => []
           end.
Proof.
  induction 1 as [st Hge|st Hlt Hpar|st Hlt|st st' it hist o Hlt Hpar _ IH];
    intros st1 H1.
  - cbn in H1. injection H1 as <-. reflexivity.
  - cbn in H1. injection H1 as <-. reflexivity.
  - cbn in H1. injection H1 as <-. cbn. rewrite app_nil_r. reflexivity.
  - destruct (parallel_region_io h c fuel st st' it Hpar) as [Hout _].
    destruct (parallel_region_spec h c fuel st st' it Hpar) as [_ [_ [His _]]].
    rewrite (IH st1 H1). cbn [advance stdout map flat_map].
    rewrite Hout, His, <- !app_assoc. reflexivity.
Qed.

(** The barrier let the team through in every completed iteration. *)
Lemma runs_team st hist o :
  runs h c fuel st hist o ->
  Forall (fun it => team_returns h c (it_step it) fuel = true) hist.
Proof.
  induction 1 as [| | |st st' it hist o Hlt Hpar _ IH]; auto.
  constructor; [|exact IH].
  destruct (parallel_region_io h c fuel st st' it Hpar) as [_ [Hteam _]].
  destruct (parallel_region_spec h c fuel st st' it Hpar) as [_ [_ [His _]]].
  rewrite His. exact Hteam.
Qed.

Hypothesis Hsteps : steps c <= INT_MAX.

(** The state file after a run that starts at step 0: the first
    iteration decides whether what was there is kept. *)
Lemma runs_fresh_log st hist o :
  runs h c fuel st hist o -> step st = 0 ->
  forall st', last_state o = Some st' ->
    content (file st')
    = match hist with
      | [] => content (file st)
      | it :: _ =>
          match it_entry it with
          | Some _ => []
          | None => content (file st)
          end ++ entries_written hist
      end.
Proof.
  intros Hruns H0 st1 H1.
  destruct Hruns as [st Hge|st Hlt Hpar|st Hlt|st st' it hist o Hlt Hpar Hruns].
  - cbn in H1. injection H1 as <-. reflexivity.
  - cbn in H1. injection H1 as <-. reflexivity.
  - cbn in H1. injection H1 as <-. reflexivity.
  - destruct (advance_after_region h c fuel Hsteps st st' it Hpar
                ltac:(rewrite H0; int_lia) Hlt) as [Hadv _].
    destruct (parallel_region_spec h c fuel st st' it Hpar)
      as [_ [_ [_ [_ [_ [_ [Hw Hnw]]]]]]].
    rewrite (runs_log_retained h c fuel Hsteps _ _ _ Hruns ltac:(lia) st1 H1).
    cbn [advance file entries_written flat_map]. rewrite app_assoc. f_equal.
    destruct (it_entry it) as [e|].
    + destruct (Hw e eq_refl) as [_ [_ Hf]]. rewrite Hf, H0. reflexivity.
    + rewrite (Hnw eq_refl), app_nil_r. reflexivity.
Qed.

End RunsMore.

(** The state file and the answers of [fopen] have no say in how far a
    run gets and what it prints. *)
Lemma loop_progress (h : host) (c : config) (fuel : nat)
      (ok : Z -> bool) (t : Z -> Z) (sf : option string) :
  forall (n : nat) (st st' : state),
    forget_file st = forget_file st' ->
    map it_step (fst (loop h c fuel n st))
    = map it_step (fst (loop (with_io h ok t)
                             (mkConfig (steps c) (work_ms c) sf) fuel n st')) /\
    progress (snd (loop h c fuel n st))
    = progress (snd (loop (with_io h ok t)
                          (mkConfig (steps c) (work_ms c) sf) fuel n st')).
Proof.
  induction n as [|n IH]; intros st st' Hf;
    assert (Hstep : step st = step st') by (apply (f_equal step) in Hf; exact Hf);
    cbn [loop steps]; rewrite <- Hstep;
    destruct (Z.ltb_spec (step st) (steps c)) as [Hlt|Hge];
    try (cbn [fst snd map progress]; split; [reflexivity|]; f_equal;
         unfold done, forget_file in *; cbn in *; congruence).
  destruct (parallel_region h c fuel st) as [[st1 it]|] eqn:Hpar.
  - destruct (parallel_region_spec h c fuel st st1 it Hpar)
      as [Hs1 [Hg1 [His _]]].
    destruct (parallel_region_io h c fuel st st1 it Hpar) as [Ho1 _].
    assert (Hteam : team_returns h c (step st) fuel = true).
    { unfold parallel_region in Hpar.
      destruct (team_returns h c (step st) fuel); [reflexivity|discriminate]. }
    destruct (parallel_region (with_io h ok t) (mkConfig (steps c) (work_ms c) sf)
                              fuel st') as [[st1' it']|] eqn:Hpar'.
    + destruct (parallel_region_spec _ _ _ st' st1' it' Hpar')
        as [Hs1' [Hg1' [His' _]]].
      destruct (parallel_region_io _ _ _ st' st1' it' Hpar') as [Ho1' _].
      assert (Hf1 : forget_file (advance st1) = forget_file (advance st1')).
      { unfold forget_file, advance. cbn [step global_counter stdout file].
        rewrite Hs1, Hg1, Ho1, Hs1', Hg1', Ho1'.
        unfold forget_file in Hf. injection Hf as H1 H2 H3.
        rewrite H1, H2, H3. reflexivity. }
      destruct (IH (advance st1) (advance st1') Hf1) as [IH1 IH2].
      destruct (loop h c fuel n (advance st1)) as [hist o].
      destruct (loop _ _ fuel n (advance st1')) as [hist' o'].
      cbn [fst snd map] in *. rewrite His, His', IH1, IH2, Hstep. auto.
    + exfalso. unfold parallel_region in Hpar'. rewrite <- Hstep in Hpar'.
      change (team_returns (with_io h ok t) (mkConfig (steps c) (work_ms c) sf)
                           (step st) fuel)
        with (team_returns h c (step st) fuel) in Hpar'.
      rewrite Hteam in Hpar'. discriminate.
  - assert (Hteam : team_returns h c (step st) fuel = false).
    { unfold parallel_region in Hpar.
      destruct (team_returns h c (step st) fuel); [discriminate|reflexivity]. }
    unfold parallel_region at 1 2. rewrite <- Hstep.
    change (team_returns (with_io h ok t) (mkConfig (steps c) (work_ms c) sf)
                         (step st) fuel)
      with (team_returns h c (step st) fuel).
    rewrite Hteam. cbn [fst snd map progress]. split; [reflexivity|]. f_equal.
    unfold forget_file, before_barrier in *.
    cbn [step global_counter stdout file] in *.
    injection Hf as H1 H2 H3. rewrite <- H1, H2, H3. reflexivity.
Qed.

(** X13.  A run from [main] with a state file that reaches its DONE
    line has written one entry for each step 0 .. steps-1 whose [fopen]
    succeeded, in step order, each with STEP and global_counter equal
    to the step and with the size of that step's team; a step whose [fopen]
    failed is passed over without a trace. *)
Theorem entries_follow_successful_opens
  (h : host) (argv : list string) (f : option (list entry)) (fuel : nat)
  (c : config) (path : string) (st : state)
  (Hp : parse argv = Run c) (Hsf : state_file c = Some path)
  (Hdone : snd (main h argv f fuel) = Done st) :
  entries_written (fst (main h argv f fuel))
  = map (entry_of h) (filter (fopen_ok h) (zrange 0 (steps c))).
Proof.
  unfold main in *. rewrite Hp in *.
  pose proof (run_from_runs h c fuel (init_state h f)) as Hruns.
  destruct (parse_range argv c Hp) as [[_ Hc] _].
  rewrite (runs_entries h c fuel path _ _ _ Hruns eq_refl Hsf).
  destruct (runs_done_steps h c fuel Hc _ _ _ Hruns (is_int_init h f) st Hdone)
    as [Hsteps _].
  rewrite Hsteps. reflexivity.
Qed.

Lemma entries_follow_successful_opens_witness :
  (parse ["demo"; "-s"; "3"; "-F"; "log"]%string
   = Run (mkConfig 3 25 (Some "log"%string)) /\
   state_file (mkConfig 3 25 (Some "log"%string)) = Some "log"%string /\
   exists st,
     snd (main (with_io demo_host (fun s => negb (s =? 1)) (fun s => s))
               ["demo"; "-s"; "3"; "-F"; "log"]%string None 1) = Done st) /\
  entries_written
    (fst (main (with_io demo_host (fun s => negb (s =? 1)) (fun s => s))
               ["demo"; "-s"; "3"; "-F"; "log"]%string None 1))
  = [mkEntry 0 0 0 2; mkEntry 2 2 2 2].
Proof.
  assert (H1 : parse ["demo"; "-s"; "3"; "-F"; "log"]%string
               = Run (mkConfig 3 25 (Some "log"%string))) by reflexivity.
  assert (H2 : state_file (mkConfig 3 25 (Some "log"%string)) = Some "log"%string)
    by reflexivity.
  assert (H3 : exists st,
             snd (main (with_io demo_host (fun s => negb (s =? 1)) (fun s => s))
                       ["demo"; "-s"; "3"; "-F"; "log"]%string None 1) = Done st)
    by (eexists; reflexivity).
  split; [auto|].
  destruct H3 as [st H3].
  exact (entries_follow_successful_opens _ _ None 1 _ _ st H1 H2 H3).
Defined.

(** X14.  After a run from [main] that got through at least one
    iteration, the state file holds exactly the entries of this run
    when step 0 opened it (mode "w" threw away what was there); when
    the [fopen] of step 0 failed, or no state file is given, what was
    there is kept and the entries of this run follow it. *)
Theorem first_open_decides_truncation
  (h : host) (argv : list string) (f : option (list entry)) (fuel : nat)
  (c : config)
  (Hp : parse argv = Run c) (Hit : fst (main h argv f fuel) <> []) :
  (state_file c <> None /\ fopen_ok h 0 = true ->
   log_of (main h argv f fuel) = entries_written (fst (main h argv f fuel))) /\
  (state_file c = None \/ fopen_ok h 0 = false ->
   log_of (main h argv f fuel)
   = content f ++ entries_written (fst (main h argv f fuel))).
Proof.
  unfold main in *. rewrite Hp in *.
  pose proof (run_from_runs h c fuel (init_state h f)) as Hruns.
  destruct (parse_range argv c Hp) as [[_ Hc] _].
  destruct (runs_last_state h c fuel _ _ _ Hruns) as [st' Hst'].
  pose proof (runs_fresh_log h c fuel Hc _ _ _ Hruns eq_refl st' Hst') as Hlog.
  unfold log_of. rewrite Hst', Hlog.
  assert (Hhead : forall it rest,
             fst (run_from h c fuel (init_state h f)) = it :: rest ->
             it_entry it
             = match state_file c with
               | Some _ =>
                   if fopen_ok h 0
                   then Some {| e_time := time_at h 0; e_step := 0;
                                e_counter := 0; e_threads := Zpos (nthreads h 0) |}
                   else None
               | None => None
               end).
  { intros it rest Heq. rewrite Heq in Hruns.
    inversion Hruns as [| | |? st1 ? ? ? _ Hpar _]; subst.
    destruct (parallel_region_io h c fuel _ _ _ Hpar) as [_ [_ [_ He]]]. exact He. }
  destruct (fst (run_from h c fuel (init_state h f))) as [|it rest];
    [contradiction|].
  rewrite (Hhead it rest eq_refl). cbn [file init_state].
  split.
  - intros [Hsf Hok]. destruct (state_file c); [|contradiction].
    rewrite Hok. reflexivity.
  - intros [Hsf|Hok].
    + rewrite Hsf. reflexivity.
    + rewrite Hok. destruct (state_file c); reflexivity.
Qed.

Lemma first_open_decides_truncation_witness :
  (parse ["demo"; "-s"; "2"; "-F"; "log"]%string
   = Run (mkConfig 2 25 (Some "log"%string)) /\
   fst (main (with_io demo_host (fun s => negb (s =? 0)) (fun s => s))
             ["demo"; "-s"; "2"; "-F"; "log"]%string
             (Some [mkEntry 7 7 7 7]) 1) <> []) /\
  log_of (main (with_io demo_host (fun s => negb (s =? 0)) (fun s => s))
               ["demo"; "-s"; "2"; "-F"; "log"]%string
               (Some [mkEntry 7 7 7 7]) 1)
  = [mkEntry 7 7 7 7; mkEntry 1 1 1 2].
Proof.
  assert (H1 : parse ["demo"; "-s"; "2"; "-F"; "log"]%string
               = Run (mkConfig 2 25 (Some "log"%string))) by reflexivity.
  assert (H2 : fst (main (with_io demo_host (fun s => negb (s =? 0)) (fun s => s))
                         ["demo"; "-s"; "2"; "-F"; "log"]%string
                         (Some [mkEntry 7 7 7 7]) 1) <> [])
    by (vm_compute; discriminate).
  split; [auto|].
  apply (proj2 (first_open_decides_truncation _ _ _ 1 _ H1 H2)).
  right. reflexivity.
Defined.

(** X15.  Writing the state file is best effort: with other answers
    of [fopen] and [time], with another state file or none, and with
    whatever the file held, a run goes through the same steps, stops
    the same way and has printed the same lines. *)
Theorem state_file_never_affects_progress
  (h : host) (c : config) (fuel : nat) (st : state)
  (ok : Z -> bool) (t : Z -> Z) (sf : option string) (f' : option (list entry)) :
  map it_step (fst (run_from h c fuel st))
  = map it_step
      (fst (run_from (with_io h ok t) (mkConfig (steps c) (work_ms c) sf) fuel
                     (mkState (step st) (global_counter st) f' (stdout st)))) /\
  progress (snd (run_from h c fuel st))
  = progress
      (snd (run_from (with_io h ok t) (mkConfig (steps c) (work_ms c) sf) fuel
                     (mkState (step st) (global_counter st) f' (stdout st)))).
Proof.
  unfold run_from. cbn [steps step].
  apply loop_progress. reflexivity.
Qed.

(** X16.  Without -F no [fopen] is ever attempted, no entry is
    written, and the file is left as it was. *)
Theorem no_state_file_no_io
  (h : host) (c : config) (fuel : nat) (st : state)
  (Hsf : state_file c = None) :
  Forall (fun it => it_open it = None /\ it_entry it = None)
         (fst (run_from h c fuel st)) /\
  log_of (run_from h c fuel st) = content (file st).
Proof.
  pose proof (run_from_runs h c fuel st) as Hruns.
  destruct (runs_no_state_file h c fuel _ _ _ Hruns Hsf) as [Hall Hfile].
  split; [exact Hall|].
  destruct (runs_last_state h c fuel _ _ _ Hruns) as [st' Hst'].
  unfold log_of. rewrite Hst', (Hfile st' Hst'). reflexivity.
Qed.

Lemma no_state_file_no_io_witness :
  state_file (mkConfig 2 25 None) = None /\
  log_of (run_from demo_host (mkConfig 2 25 None) 1
                   (init_state demo_host (Some [mkEntry 7 7 7 7])))
  = [mkEntry 7 7 7 7].
Proof.
  assert (H : state_file (mkConfig 2 25 None) = None) by reflexivity.
  split; [exact H|].
  exact (proj2 (no_state_file_no_io demo_host (mkConfig 2 25 None) 1
                  (init_state demo_host (Some [mkEntry 7 7 7 7])) H)).
Defined.

Lemma flat_map_eq_In {A B : Type} (f g : A -> list B) (l : list A) :
  (forall x, In x l -> f x = g x) -> flat_map f l = flat_map g l.
Proof.
  induction l as [|x l IH]; intros H; [reflexivity|].
  cbn [flat_map]. rewrite (H x (or_introl eq_refl)).
  f_equal. apply IH. intros y Hy. apply H. right. exact Hy.
Qed.

Lemma flat_map_length_sum {A B : Type} (f : A -> list B) (l : list A) :
  length (flat_map f l) = list_sum (map (fun x => length (f x)) l).
Proof.
  induction l as [|x l IH]; [reflexivity|].
  cbn [flat_map map list_sum]. rewrite length_app, IH. reflexivity.
Qed.

(** X17.  The stdout of a run from [main] that reaches its DONE line
    is the banner with the value of [omp_get_max_threads()], then step
    by step for 0 .. steps-1 the lines of that step's team in the
    order the scheduler gave them, one line for each thread of the
    team, and last the DONE line with the step count given and the
    final counter: 2 lines and one for each thread of each team in
    all. *)
Theorem stdout_of_a_complete_run
  (h : host) (argv : list string) (f : option (list entry)) (fuel : nat)
  (c : config) (st : state)
  (Hp : parse argv = Run c) (Hsched : sched_ok h c)
  (Hdone : snd (main h argv f fuel) = Done st) :
  stdout st
  = EvBanner (Zpos (max_threads h))
      :: flat_map (thread_lines h) (zrange 0 (steps c))
      ++ [EvDone (steps c) (Z.max 0 (steps c))] /\
  (forall s, 0 <= s < steps c ->
     Permutation (thread_lines h s)
                 (map (thread_line h s) (seq 0 (Pos.to_nat (nthreads h s))))) /\
  length (stdout st)
  = (2 + list_sum (map (fun s => Pos.to_nat (nthreads h s))
                       (zrange 0 (steps c))))%nat.
Proof.
  unfold main in Hdone. rewrite Hp in Hdone.
  pose proof (run_from_runs h c fuel (init_state h f)) as Hruns.
  destruct (parse_range argv c Hp) as [[_ Hc] _].
  destruct (runs_done_steps h c fuel Hc _ _ _ Hruns (is_int_init h f) st Hdone)
    as [Hsteps [Hfin _]].
  destruct (runs_step_eq_counter h c fuel _ _ _ Hruns eq_refl) as [_ [_ Heq]].
  pose proof (runs_team h c fuel _ _ _ Hruns) as Hteam.
  pose proof (runs_stdout h c fuel _ _ _ Hruns st
                ltac:(rewrite Hdone; reflexivity)) as Hout.
  rewrite Hdone in Hout.
  rewrite <- (Heq st) in Hout by (rewrite Hdone; reflexivity).
  rewrite Hfin in Hout. change (step (init_state h f)) with 0 in Hout, Hsteps.
  rewrite (flat_map_eq_In (fun s => printed h c s fuel) (thread_lines h)) in Hout.
  2:{ intros s Hin. apply printed_whole_team.
      - rewrite Forall_forall in Hteam. apply in_map_iff in Hin.
        destruct Hin as [it [<- Hit]]. apply Hteam. exact Hit.
      - apply Hsched. rewrite Hsteps in Hin. apply zrange_In in Hin. exact Hin. }
  rewrite Hsteps in Hout.
  assert (Hfull : stdout st
                  = EvBanner (Zpos (max_threads h))
                      :: flat_map (thread_lines h) (zrange 0 (steps c))
                      ++ [EvDone (steps c) (Z.max 0 (steps c))])
    by (rewrite Hout; reflexivity).
  split; [exact Hfull|]. split.
  - intros s Hs. unfold thread_lines. apply Permutation_map. apply Hsched. exact Hs.
  - rewrite Hfull. cbn [length]. rewrite length_app, flat_map_length_sum.
    cbn [length]. rewrite Nat.add_1_r. change (2 + ?x)%nat with (S (S x)).
    do 3 f_equal. apply map_ext_in. intros s Hin. apply zrange_In in Hin.
    unfold thread_lines. rewrite length_map.
    rewrite (Permutation_length (Hsched s Hin)). apply length_seq.
Qed.

Lemma stdout_of_a_complete_run_witness :
  (parse ["demo"; "-s"; "2"]%string = Run (mkConfig 2 25 None) /\
   sched_ok uneven_host (mkConfig 2 25 None) /\
   exists st, snd (main uneven_host ["demo"; "-s"; "2"]%string None 1) = Done st) /\
  exists st,
    snd (main uneven_host ["demo"; "-s"; "2"]%string None 1) = Done st /\
    stdout st = [EvBanner 4; EvThread 0 1 2; EvThread 0 0 2;
                 EvThread 1 1 2; EvThread 1 0 2; EvDone 2 2].
Proof.
  assert (H1 : parse ["demo"; "-s"; "2"]%string = Run (mkConfig 2 25 None))
    by reflexivity.
  assert (H2 : sched_ok uneven_host (mkConfig 2 25 None))
    by (intros s _; apply perm_swap).
  assert (H3 : exists st,
             snd (main uneven_host ["demo"; "-s"; "2"]%string None 1) = Done st)
    by (eexists; reflexivity).
  split; [auto|].
  destruct H3 as [st H3]. exists st. split; [exact H3|].
  exact (proj1 (stdout_of_a_complete_run uneven_host _ None 1 _ st H1 H2 H3)).
Defined.

End OmpMore.
